(** * The Redwood builder: packaging pipeline of [packages/redwood/src/index.ts]

    A shallow embedding of the part of [build] that runs after the external
    install and build commands (lines 167-318) and of [getAWSLambdaHandler],
    together with the POSIX flavour of the Node [path] functions the builder
    calls. *)

From Stdlib Require Import Ascii ZArith Lia.
From stdpp Require Import gmap strings list fin_maps.

Local Open Scope Z_scope.
Local Open Scope nat_scope.

(** ** Node's [path] module, POSIX flavour

    The builder imports [join], [relative], [parse], [basename] and [sep]
    from [path].  They are library code; the definitions below follow the
    POSIX implementation ([path.posix]), phrased on whole strings rather
    than on character indices. *)
Module Path.

Definition slash : ascii := "/"%char.
Definition dot : ascii := "."%char.

(** [sep] on a POSIX host. *)
Definition sep : string := "/".

(** Drop every trailing occurrence of [c]. *)
Fixpoint rstrip (c : ascii) (s : string) : string :=
  match s with
  | "" => ""
  | String x t =>
      match rstrip c t with
      | "" => if decide (x = c) then "" else String x ""
      | r => String x r
      end
  end.

(** The trailing run of [c] that [rstrip] drops. *)
Fixpoint rtail (c : ascii) (s : string) : string :=
  match s with
  | "" => ""
  | String x t =>
      match rstrip c t with
      | "" => if decide (x = c) then s else rtail c t
      | _ => rtail c t
      end
  end.

(** Split at the last occurrence of [c]: [(before, after)]. *)
Fixpoint rsplit (c : ascii) (s : string) : option (string * string) :=
  match s with
  | "" => None
  | String x t =>
      match rsplit c t with
      | Some (a, b) => Some (String x a, b)
      | None => if decide (x = c) then Some ("", t) else None
      end
  end.

(** [s] without the suffix [suf], when it ends with it. *)
Fixpoint strip_suffix (suf s : string) : option string :=
  if decide (s = suf) then Some ""
  else match s with
       | "" => None
       | String x t => String x <$> strip_suffix suf t
       end.

(** JS [s.split(c)]: never empty, [""] splits to [[""]]. *)
Fixpoint split_on (c : ascii) (s : string) : list string :=
  match s with
  | "" => [""]
  | String x t =>
      if decide (x = c) then "" :: split_on c t
      else match split_on c t with
           | seg :: r => String x seg :: r
           | [] => [String x ""]
           end
  end.

(** JS [segs.join(sep)]. *)
Fixpoint join_with (sp : string) (segs : list string) : string :=
  match segs with
  | [] => ""
  | [s] => s
  | s :: r => s +:+ sp +:+ join_with sp r
  end.

Definition starts_with_slash (s : string) : bool :=
  match s with String c _ => bool_decide (c = slash) | "" => false end.

Fixpoint ends_with_slash (s : string) : bool :=
  match s with
  | "" => false
  | String c "" => bool_decide (c = slash)
  | String _ t => ends_with_slash t
  end.

Record ParsedPath := {
  root : string;
  dir : string;
  base : string;
  ext : string;
  name : string
}.

Global Instance ParsedPath_eq_dec : EqDecision ParsedPath.
Proof. solve_decision. Defined.

(** Extension split of a base name: the extension starts at the last dot,
    unless there is no dot, the last dot is the first character, or (when
    [dotdot] is set) the base is exactly [..]. *)
Definition split_ext (dotdot : bool) (b : string) : string * string :=
  match rsplit dot b with
  | None => (b, "")
  | Some (pre, post) =>
      if decide (pre = "") then (b, "")
      else if dotdot && bool_decide (b = "..") then (b, "")
      else (pre, String dot post)
  end.

(** [path.parse].  The scan of the implementation skips the leading slash
    of an absolute path, ignores trailing slashes and stops at the last
    slash before the base.  The [..] exception of the extension rule
    compares the dot position with [startPart + 1]; with an absolute path
    and no further slash that test never succeeds (hence [negb isAbs]). *)
Definition parse (path : string) : ParsedPath :=
  match path with
  | "" => {| root := ""; dir := ""; base := ""; ext := ""; name := "" |}
  | String c0 rest =>
      let isAbs := bool_decide (c0 = slash) in
      let rt := if isAbs then "/" else "" in
      let trimmed := rstrip slash (if isAbs then rest else path) in
      if decide (trimmed = "") then
        {| root := rt; dir := rt; base := ""; ext := ""; name := "" |}
      else
        match rsplit slash trimmed with
        | Some (pre, b) =>
            let ne := split_ext true b in
            {| root := rt; dir := rt +:+ pre; base := b;
               ext := ne.2; name := ne.1 |}
        | None =>
            let ne := split_ext (negb isAbs) trimmed in
            {| root := rt; dir := rt; base := trimmed;
               ext := ne.2; name := ne.1 |}
        end
  end.

(** [path.basename(path, suffix)] with a suffix argument. *)
Definition basename (path suffix : string) : string :=
  let trimmed := rstrip slash path in
  let b := match rsplit slash trimmed with Some (_, b) => b | None => trimmed end in
  if bool_decide (suffix ≠ "") && bool_decide (String.length suffix ≤ String.length path) then
    if decide (suffix = path) then ""
    else if decide (trimmed = "") then path
    else
      match strip_suffix suffix b with
      | Some "" => b
      | Some stem => stem
      | None =>
          (* the whole base matched a tail of the suffix: the scan never
             fixes [end] and the slice runs to the end of [path] *)
          if bool_decide (is_Some (strip_suffix b suffix)) then b +:+ rtail slash path
          else b
      end
  else b.

(** One step of [normalizeString], on the segment stack (last segment
    first). *)
Definition norm_step (allowAboveRoot : bool) (stack : list string) (seg : string)
  : list string :=
  if decide (seg = "") then stack
  else if decide (seg = ".") then stack
  else if decide (seg = "..") then
    match stack with
    | [] => if allowAboveRoot then [".."] else []
    | top :: rest =>
        if decide (top = "..") then (if allowAboveRoot then ".." :: stack else stack)
        else rest
    end
  else seg :: stack.

Definition normalizeString (path : string) (allowAboveRoot : bool) : string :=
  join_with "/" (rev (foldl (norm_step allowAboveRoot) [] (split_on slash path))).

(** [path.normalize]. *)
Definition normalize (path : string) : string :=
  if decide (path = "") then "."
  else
    let isAbs := starts_with_slash path in
    let trailing := ends_with_slash path in
    let p := normalizeString path (negb isAbs) in
    if decide (p = "") then
      (if isAbs then "/" else if trailing then "./" else ".")
    else
      let p := if trailing then p +:+ "/" else p in
      if isAbs then "/" +:+ p else p.

(** [path.join(...args)]. *)
Definition join (args : list string) : string :=
  match filter (λ a, a ≠ "") args with
  | [] => "."
  | parts => normalize (join_with "/" parts)
  end.

(** [path.resolve(p)] for one argument; [cwd] is [process.cwd()]. *)
Definition resolve (cwd p : string) : string :=
  let pre := if decide (p = "") then ""
             else p +:+ "/" in
  let full := if starts_with_slash p then pre
              else if decide (cwd = "") then pre
              else cwd +:+ "/" +:+ pre in
  let isAbs := starts_with_slash full in
  let r := normalizeString full (negb isAbs) in
  if isAbs then "/" +:+ r
  else if decide (r = "") then "." else r.

(** Segments of a resolved path after its leading slash. *)
Definition segs_after_root (p : string) : list string :=
  match p with
  | "" => []
  | String _ "" => []
  | String _ t => split_on slash t
  end.

Fixpoint strip_common (xs ys : list string) : list string * list string :=
  match xs, ys with
  | x :: xs', y :: ys' =>
      if decide (x = y) then strip_common xs' ys' else (xs, ys)
  | _, _ => (xs, ys)
  end.

(** [path.relative(from, to)]: one [..] per segment of [from] below the
    common directory, then the rest of [to].  [cwd], the working directory
    of the process, is an absolute path. *)
Definition relative (cwd from to : string) : string :=
  if decide (from = to) then ""
  else
    let from' := resolve cwd from in
    let to' := resolve cwd to in
    if decide (from' = to') then ""
    else
      let '(fs, ts) := strip_common (segs_after_root from') (segs_after_root to') in
      join_with "/" (((λ _, "..") <$> fs) ++ ts).

End Path.

Import Path.

(** ** The same functions, character by character

    [parse], [basename], [normalizeString] and [relative] once more, as the
    loops over character positions of the implementation in Node's
    [lib/path.js]; [-1] is [None] for positions that may be unset.  They
    are compared with the definitions of [Path] on all short paths. *)
Module PathScan.

Definition charAt (s : string) (i : nat) : option ascii := String.get i s.

(** [s.slice(a, b)] *)
Definition slice (s : string) (a b : nat) : string := String.substring a (b - a) s.

Definition isSlash (c : option ascii) : bool := bool_decide (c = Some slash).
Definition isDot (c : option ascii) : bool := bool_decide (c = Some dot).

(** [s.lastIndexOf('/')] *)
Definition lastIndexOfSlash (s : string) : option nat :=
  (λ ab, String.length ab.1) <$> rsplit slash s.

Record ParseState := {
  startDot : option nat;
  startPart : nat;
  endPos : option nat;
  matchedSlash : bool;
  preDotState : Z
}.

(** The loop [for (; i >= start; --i)] of [parse]; [n] counts the positions
    left, the current one is [start + n - 1]. *)
Fixpoint parse_loop (path : string) (start n : nat) (s : ParseState) : ParseState :=
  match n with
  | 0 => s
  | S n' =>
      let i := start + n' in
      let code := charAt path i in
      if isSlash code then
        if negb (matchedSlash s) then
          {| startDot := startDot s; startPart := i + 1; endPos := endPos s;
             matchedSlash := matchedSlash s; preDotState := preDotState s |}
        else parse_loop path start n' s
      else
        let s1 :=
          match endPos s with
          | None => {| startDot := startDot s; startPart := startPart s;
                       endPos := Some (i + 1); matchedSlash := false;
                       preDotState := preDotState s |}
          | Some _ => s
          end in
        let s2 :=
          if isDot code then
            match startDot s1 with
            | None => {| startDot := Some i; startPart := startPart s1;
                         endPos := endPos s1; matchedSlash := matchedSlash s1;
                         preDotState := preDotState s1 |}
            | Some _ => {| startDot := startDot s1; startPart := startPart s1;
                           endPos := endPos s1; matchedSlash := matchedSlash s1;
                           preDotState := 1 |}
            end
          else
            match startDot s1 with
            | Some _ => {| startDot := startDot s1; startPart := startPart s1;
                           endPos := endPos s1; matchedSlash := matchedSlash s1;
                           preDotState := (-1) |}
            | None => s1
            end in
        parse_loop path start n' s2
  end.

Definition parse (path : string) : ParsedPath :=
  if decide (String.length path = 0) then
    {| root := ""; dir := ""; base := ""; ext := ""; name := "" |}
  else
    let isAbsolute := isSlash (charAt path 0) in
    let start := if isAbsolute then 1 else 0 in
    let s := parse_loop path start (String.length path - start)
               {| startDot := None; startPart := 0; endPos := None;
                  matchedSlash := true; preDotState := 0 |} in
    let dir := if decide (0 < startPart s) then slice path 0 (startPart s - 1)
               else if isAbsolute then "/" else "" in
    let rt := if isAbsolute then "/" else "" in
    match endPos s with
    | None => {| root := rt; dir := dir; base := ""; ext := ""; name := "" |}
    | Some e =>
        let start' := if bool_decide (startPart s = 0) && isAbsolute then 1 else startPart s in
        let noExt :=
          match startDot s with
          | None => true
          | Some sd =>
              bool_decide (preDotState s = 0%Z)
              || (bool_decide (preDotState s = 1%Z) && bool_decide (sd + 1 = e)
                  && bool_decide (sd = startPart s + 1))
          end in
        if noExt then
          {| root := rt; dir := dir; base := slice path start' e; ext := "";
             name := slice path start' e |}
        else
          let sd := default 0 (startDot s) in
          {| root := rt; dir := dir; base := slice path start' e;
             ext := slice path sd e; name := slice path start' sd |}
    end.

Record BaseState := {
  bstart : nat;
  bend : option nat;
  bmatchedSlash : bool;
  extIdx : option nat;
  firstNonSlashEnd : option nat
}.

(** The loop [for (let i = path.length - 1; i >= 0; --i)] of [basename]
    with a suffix; the position is [n - 1].  [extIdx] is [None] for [-1]. *)
Fixpoint basename_loop (path suffix : string) (n : nat) (s : BaseState) : BaseState :=
  match n with
  | 0 => s
  | S i =>
      let code := charAt path i in
      if isSlash code then
        if negb (bmatchedSlash s) then
          {| bstart := i + 1; bend := bend s; bmatchedSlash := bmatchedSlash s;
             extIdx := extIdx s; firstNonSlashEnd := firstNonSlashEnd s |}
        else basename_loop path suffix i s
      else
        let s1 :=
          match firstNonSlashEnd s with
          | None => {| bstart := bstart s; bend := bend s; bmatchedSlash := false;
                       extIdx := extIdx s; firstNonSlashEnd := Some (i + 1) |}
          | Some _ => s
          end in
        let s2 :=
          match extIdx s1 with
          | Some x =>
              if bool_decide (code = charAt suffix x) then
                match x with
                | 0 => {| bstart := bstart s1; bend := Some i;
                          bmatchedSlash := bmatchedSlash s1; extIdx := None;
                          firstNonSlashEnd := firstNonSlashEnd s1 |}
                | S x' => {| bstart := bstart s1; bend := bend s1;
                             bmatchedSlash := bmatchedSlash s1; extIdx := Some x';
                             firstNonSlashEnd := firstNonSlashEnd s1 |}
                end
              else
                {| bstart := bstart s1; bend := firstNonSlashEnd s1;
                   bmatchedSlash := bmatchedSlash s1; extIdx := None;
                   firstNonSlashEnd := firstNonSlashEnd s1 |}
          | None => s1
          end in
        basename_loop path suffix i s2
  end.

(** The loop of [basename] without a usable suffix. *)
Fixpoint basename_plain_loop (path : string) (n : nat) (s : BaseState) : BaseState :=
  match n with
  | 0 => s
  | S i =>
      if isSlash (charAt path i) then
        if negb (bmatchedSlash s) then
          {| bstart := i + 1; bend := bend s; bmatchedSlash := bmatchedSlash s;
             extIdx := extIdx s; firstNonSlashEnd := firstNonSlashEnd s |}
        else basename_plain_loop path i s
      else
        basename_plain_loop path i
          match bend s with
          | None => {| bstart := bstart s; bend := Some (i + 1); bmatchedSlash := false;
                       extIdx := extIdx s; firstNonSlashEnd := firstNonSlashEnd s |}
          | Some _ => s
          end
  end.

Definition basename (path suffix : string) : string :=
  let len := String.length path in
  if bool_decide (0 < String.length suffix) && bool_decide (String.length suffix ≤ len) then
    if decide (suffix = path) then ""
    else
      let s := basename_loop path suffix len
                 {| bstart := 0; bend := None; bmatchedSlash := true;
                    extIdx := Some (String.length suffix - 1);
                    firstNonSlashEnd := None |} in
      let e := if decide (Some (bstart s) = bend s) then default len (firstNonSlashEnd s)
               else default len (bend s) in
      slice path (bstart s) e
  else
    let s := basename_plain_loop path len
               {| bstart := 0; bend := None; bmatchedSlash := true;
                  extIdx := None; firstNonSlashEnd := None |} in
    match bend s with
    | None => ""
    | Some e => slice path (bstart s) e
    end.

Record NormState := {
  res : string;
  lastSegmentLength : nat;
  lastSlash : Z;
  dots : Z
}.

Definition endsWithDotDot (r : string) : bool :=
  let n := String.length r in
  isDot (charAt r (n - 1)) && isDot (charAt r (n - 2)).

(** The body of the loop of [normalizeString] at position [i], for the
    character [code]. *)
Definition norm_body (path : string) (allowAboveRoot : bool) (s : NormState) (i : nat)
    (code : option ascii) : NormState :=
  if isSlash code then
    if bool_decide (lastSlash s = Z.of_nat i - 1)%Z || bool_decide (dots s = 1%Z) then
      {| res := res s; lastSegmentLength := lastSegmentLength s;
         lastSlash := Z.of_nat i; dots := 0 |}
    else if bool_decide (dots s = 2%Z) then
      let above :=
        if allowAboveRoot then
          {| res := res s +:+ (if bool_decide (0 < String.length (res s)) then "/.." else "..");
             lastSegmentLength := 2; lastSlash := Z.of_nat i; dots := 0 |}
        else
          {| res := res s; lastSegmentLength := lastSegmentLength s;
             lastSlash := Z.of_nat i; dots := 0 |} in
      if bool_decide (String.length (res s) < 2) || bool_decide (lastSegmentLength s ≠ 2)
         || negb (endsWithDotDot (res s)) then
        if bool_decide (2 < String.length (res s)) then
          match lastIndexOfSlash (res s) with
          | None => {| res := ""; lastSegmentLength := 0; lastSlash := Z.of_nat i; dots := 0 |}
          | Some k =>
              let r := slice (res s) 0 k in
              {| res := r;
                 lastSegmentLength :=
                   match lastIndexOfSlash r with
                   | None => String.length r
                   | Some k' => String.length r - 1 - k'
                   end;
                 lastSlash := Z.of_nat i; dots := 0 |}
          end
        else if bool_decide (String.length (res s) ≠ 0) then
          {| res := ""; lastSegmentLength := 0; lastSlash := Z.of_nat i; dots := 0 |}
        else above
      else above
    else
      let seg := slice path (Z.to_nat (lastSlash s + 1)) i in
      {| res := if bool_decide (0 < String.length (res s)) then res s +:+ "/" +:+ seg else seg;
         lastSegmentLength := i - Z.to_nat (lastSlash s + 1);
         lastSlash := Z.of_nat i; dots := 0 |}
  else if isDot code && negb (bool_decide (dots s = (-1)%Z)) then
    {| res := res s; lastSegmentLength := lastSegmentLength s;
       lastSlash := lastSlash s; dots := (dots s + 1)%Z |}
  else
    {| res := res s; lastSegmentLength := lastSegmentLength s;
       lastSlash := lastSlash s; dots := (-1)%Z |}.

(** [for (let i = 0; i <= path.length; ++i)]: past the end the character is
    a slash, unless the last one was one, which ends the loop. *)
Definition normalizeString (path : string) (allowAboveRoot : bool) : string :=
  let len := String.length path in
  let s0 := {| res := ""; lastSegmentLength := 0; lastSlash := (-1)%Z; dots := 0 |} in
  let s := foldl (λ s i, norm_body path allowAboveRoot s i (charAt path i)) s0 (seq 0 len) in
  if bool_decide (0 < len) && isSlash (charAt path (len - 1)) then res s
  else res (norm_body path allowAboveRoot s len (Some slash)).

Definition resolve (cwd p : string) : string :=
  let r1 := if decide (String.length p = 0) then "" else p +:+ "/" in
  let abs1 := isSlash (charAt p 0) in
  let r2 := if abs1 then r1
            else if decide (String.length cwd = 0) then r1 else cwd +:+ "/" +:+ r1 in
  let abs2 := if abs1 then true
              else if decide (String.length cwd = 0) then false
              else isSlash (charAt cwd 0) in
  let r := normalizeString r2 (negb abs2) in
  if abs2 then "/" +:+ r
  else if bool_decide (0 < String.length r) then r else ".".

(** The first loop of [relative]: the length of the common prefix and the
    last separator in it, both counted from position 1. *)
Fixpoint common_loop (from to : string) (i n : nat) (lastCommonSep : option nat)
  : nat * option nat :=
  match n with
  | 0 => (i, lastCommonSep)
  | S n' =>
      let fromCode := charAt from (1 + i) in
      if negb (bool_decide (fromCode = charAt to (1 + i))) then (i, lastCommonSep)
      else common_loop from to (S i) n'
             (if isSlash fromCode then Some i else lastCommonSep)
  end.

Definition relative (cwd from to : string) : string :=
  if decide (from = to) then ""
  else
    let from := resolve cwd from in
    let to := resolve cwd to in
    if decide (from = to) then ""
    else
      let fromEnd := String.length from in
      let fromLen := fromEnd - 1 in
      let toLen := String.length to - 1 in
      let length := if bool_decide (fromLen < toLen) then fromLen else toLen in
      let '(i, sep0) := common_loop from to 0 length None in
      let early :=
        if bool_decide (i = length) && bool_decide (length < toLen) then
          if isSlash (charAt to (1 + i)) then Some (slice to (1 + i + 1) (String.length to))
          else if bool_decide (i = 0) then Some (slice to (1 + i) (String.length to))
          else None
        else None in
      match early with
      | Some r => r
      | None =>
          let sep1 :=
            if bool_decide (i = length) && negb (bool_decide (length < toLen))
               && bool_decide (length < fromLen) then
              if isSlash (charAt from (1 + i)) then Some i
              else if bool_decide (i = 0) then Some 0
              else sep0
            else sep0 in
          (* [fromStart + lastCommonSep + 1], with [lastCommonSep = -1] as [None] *)
          let first := match sep1 with None => 1 | Some k => 1 + k + 1 end in
          let out :=
            foldl (λ out j,
                     if bool_decide (j = fromEnd) || isSlash (charAt from j) then
                       out +:+ (if decide (String.length out = 0) then ".." else "/..")
                     else out)
                  "" (seq first (S fromEnd - first)) in
          out +:+ slice to (match sep1 with None => 0 | Some k => 1 + k end) (String.length to)
      end.

(** All strings over [alphabet] up to the given length. *)
Fixpoint words (alphabet : list ascii) (n : nat) : list string :=
  match n with
  | 0 => [""]
  | S n' => "" :: (w ← words alphabet n'; (λ c, String c w) <$> alphabet)
  end.

(** The characters that matter to the functions of [path], and a letter. *)
Definition alphabet : list ascii := [slash; dot; "a"%char].

Definition suffixes : list string :=
  [".a"; "a"; "."; "/"; "/a"; "a/"; ".."; "aa"; ""; "a.a"].

End PathScan.

(** ** JavaScript values used by the builder *)

(** A Node [Buffer]. *)
Definition Buffer := list Byte.byte.

(** A thrown JavaScript error; [fs] errors carry a [code]. *)
Record JsError := { code : option string; message : string }.

Inductive Result (A : Type) : Type :=
| Ok (a : A)
| Throw (e : JsError).
Arguments Ok {A} a.
Arguments Throw {A} e.

(** Object identity: [glob] creates the file references it returns, the
    builder creates the others with [new] and [FileFsRef.fromFsPath]. *)
Inductive ObjId :=
| GlobObj (n : nat)
| NewObj (n : nat).

(** Modelled from the spec: the classes [FileFsRef] and [FileBlob] of
    build-utils are not under src/.  A project file has a path or its
    bytes, a file mode and, for a static asset, a content type (section 3);
    [ref_id] and [blob_id] tell one object from another. *)
Record FileFsRef := {
  ref_id : ObjId;
  fsPath : string;
  mode : Z;
  contentType : option string
}.

Record FileBlob := {
  blob_id : ObjId;
  data : Buffer;
  blob_mode : Z
}.

Inductive File :=
| IsFsRef (r : FileFsRef)
| IsBlob (b : FileBlob).

Definition file_id (f : File) : ObjId :=
  match f with IsFsRef r => ref_id r | IsBlob b => blob_id b end.

(** ** Plain objects filled by assignment

    [staticOutputs], [lambdaFiles] and [lambdaOutputs] are object literals
    that [build] fills by assignments [o[k] = v], where [v] is an object.
    Such an assignment makes [k] an own property of [o] for every key but
    [__proto__]: that key is the accessor of [Object.prototype], whose
    setter makes [v] the prototype of [o] and gives [o] no property.
    [build] reads none of the three under a key; [Object.entries], the
    spread of line 315 and whoever lists the keys of a file set see own
    properties only, and those are what the map holds. *)
Definition assign {V} (k : string) (v : V) (o : gmap string V) : gmap string V :=
  if decide (k = "__proto__") then o else <[k := v]> o.

(** Modelled from the spec: the class [NodejsLambda] of build-utils is not
    under src/.  A deployable unit (section 3), with the fields the builder
    sets at lines 281-290; [files] holds the own properties of the object
    given as [files]. *)
Record Lambda := {
  files : gmap string File;
  handler : string;
  runtime : string;
  memory : option Z;
  maxDuration : option Z;
  shouldAddHelpers : bool;
  shouldAddSourcemapSupport : bool;
  awsLambdaHandler : string
}.

(** A warning of the resolver: an [Error] object, whose [stack] is
    optional; a warning that is [null] or [undefined] has none either. *)
Record Warning := { stack : option string }.

Record TraceResult := {
  fileList : list string;
  esmFileList : list string;
  warnings : list Warning
}.

(** A run of [nodeFileTrace]: the resolver reads files through the
    [readFile] callback it is given and ends with a result or an error of
    its own.  A call of the callback returns or throws; what the resolver
    does then is its own business: it may pass the error on ([NftThrow]),
    or go on, by further reads or to a result. *)
Inductive NftRun :=
| NftDone (r : TraceResult)
| NftThrow (e : JsError)
| NftRead (fsPath : string) (k : Result (option string) → NftRun).

(** The configuration handed to [getTransformedRoutes]. *)
Record Rewrite := { source : string; destination : string }.

Record NowConfig := {
  rewrites : list Rewrite;
  cleanUrls : bool;
  trailingSlash : bool
}.

Record TransformedRoutes (Route : Type) := {
  routes : list Route;
  error : option string
}.
Arguments routes {Route} _.
Arguments error {Route} _.

(** ** The file system and the builder's mutable state *)

Inductive FsCall :=
| ReadFileSync (p : string)
| LstatSync (p : string)
| Lstat (p : string)
| ExistsSync (p : string).

Global Instance FsCall_eq_dec : EqDecision FsCall.
Proof. solve_decision. Defined.

(** What the file system answers at one moment. *)
Record FsSnapshot := {
  fs_readFile : string → Buffer + JsError;
  fs_lstat : string → Z + JsError;
  fs_exists : string → bool
}.

(** [sourceCache] and [fsCache] are the two maps of lines 212-213; an entry
    [Some None] of [sourceCache] is the cached [null] (not found), no entry
    is [undefined].  [fsLog] records every file-system call, [debugLog]
    every line given to [debug]. *)
Record State := {
  sourceCache : gmap string (option Buffer);
  fsCache : gmap string File;
  fsLog : list FsCall;
  debugLog : list string;
  nextId : nat
}.

Definition M (A : Type) : Type := State → Result A * State.

Global Instance M_ret : MRet M := λ A a st, (Ok a, st).
Global Instance M_bind : MBind M := λ A B f m st,
  match m st with
  | (Ok a, st') => f a st'
  | (Throw e, st') => (Throw e, st')
  end.

Definition throw {A} (e : JsError) : M A := λ st, (Throw e, st).

(** [try { body } catch (e) { handler e }]: effects of [body] before the
    throw stay. *)
Definition try_catch {A} (body : M A) (handler : JsError → M A) : M A := λ st,
  match body st with
  | (Ok a, st') => (Ok a, st')
  | (Throw e, st') => handler e st'
  end.

Definition liftResult {A} (r : Result A) : M A := λ st, (r, st).

(** What a caller of [m] that handles its errors gets: the value returned
    or the error thrown. *)
Definition attempt {A} (m : M A) : M (Result A) := λ st,
  let (r, st') := m st in (Ok r, st').

Definition gets {A} (f : State → A) : M A := λ st, (Ok (f st), st).
Definition modify (f : State → State) : M unit := λ st, (Ok tt, f st).

Fixpoint foldM {A B} (f : B → A → M B) (acc : B) (l : list A) : M B :=
  match l with
  | [] => mret acc
  | x :: r => acc' ← f acc x; foldM f acc' r
  end.

Definition set_sourceCache (k : string) (v : option Buffer) (st : State) : State :=
  {| sourceCache := <[k := v]> (sourceCache st); fsCache := fsCache st;
     fsLog := fsLog st; debugLog := debugLog st; nextId := nextId st |}.

Definition set_fsCache (k : string) (v : File) (st : State) : State :=
  {| sourceCache := sourceCache st; fsCache := <[k := v]> (fsCache st);
     fsLog := fsLog st; debugLog := debugLog st; nextId := nextId st |}.

Definition log_fs (c : FsCall) (st : State) : State :=
  {| sourceCache := sourceCache st; fsCache := fsCache st;
     fsLog := fsLog st ++ [c]; debugLog := debugLog st; nextId := nextId st |}.

(** Modelled from the spec: [debug] of build-utils is not under src/.  It
    takes what is forwarded for external logging (section 6). *)
Definition debug (line : string) : M unit := modify (λ st,
  {| sourceCache := sourceCache st; fsCache := fsCache st;
     fsLog := fsLog st; debugLog := debugLog st ++ [line]; nextId := nextId st |}).

(** Allocation of a fresh object. *)
Definition new_id : M ObjId := λ st,
  (Ok (NewObj (nextId st)),
   {| sourceCache := sourceCache st; fsCache := fsCache st;
      fsLog := fsLog st; debugLog := debugLog st; nextId := S (nextId st) |}).

(** The state [build] starts its packaging loop in. *)
Definition init_state : State :=
  {| sourceCache := ∅; fsCache := ∅; fsLog := []; debugLog := []; nextId := 0 |}.

(** ** String helpers of JavaScript *)

Fixpoint strip_prefix (pre s : string) : option string :=
  match pre, s with
  | "", _ => Some s
  | String a p, String b t => if decide (a = b) then strip_prefix p t else None
  | String _ _, "" => None
  end.

(** [s.replace(pat, rep)] with a string pattern: the first occurrence. *)
Fixpoint replace_first (pat rep s : string) : string :=
  match strip_prefix pat s with
  | Some rest => rep +:+ rest
  | None =>
      match s with
      | "" => ""
      | String c t => String c (replace_first pat rep t)
      end
  end.

Definition ends_with (suf s : string) : bool :=
  bool_decide (is_Some (strip_suffix suf s)).

(** Modelled from the spec: [isSymbolicLink] of build-utils is not under
    src/.  Whether the target is a symbolic link (section 4.1), as the
    file-type bits of a POSIX mode tell: [(mode & 0o170000) === 0o120000]. *)
Definition isSymbolicLink (mode : Z) : bool :=
  bool_decide (Z.land mode 61440 = 40960)%Z.

(** ** [getAWSLambdaHandler] (lines 320-323) *)
Definition getAWSLambdaHandler (filePath handlerName : string) : string :=
  let p := parse filePath in
  dir p +:+ (if decide (dir p = "") then "" else sep) +:+ name p +:+ "." +:+ handlerName.

(** ** External collaborators

    Everything [build] calls that is neither in [index.ts] nor in Node's
    [path]: the working directory of the process, the file system as it
    answers the n-th call made to it, [Buffer.toString], the resolver
    [nodeFileTrace] (given its entrypoint; its options are fixed for a
    run), [getLambdaOptionsFromFunction] (given the source file),
    [nodeVersion.runtime] and [getTransformedRoutes]. *)
Record Host (Route : Type) := {
  cwd : string;
  world : nat → FsSnapshot;
  toString : Buffer → string;
  nodeFileTrace : string → NftRun;
  getLambdaOptionsFromFunction : string → Result (option Z * option Z);
  nodeRuntime : string;
  getTransformedRoutes : NowConfig → TransformedRoutes Route
}.
Arguments cwd {Route} _.
Arguments world {Route} _.
Arguments toString {Route} _.
Arguments nodeFileTrace {Route} _.
Arguments getLambdaOptionsFromFunction {Route} _.
Arguments nodeRuntime {Route} _.
Arguments getTransformedRoutes {Route} _.

(** What the steps before line 167 leave behind: the work path, the
    [apiProxyPath] of [redwood.toml] when there is one, and the three
    [glob] results as [Object.entries] lists them. *)
Record BuildInput := {
  workPath : string;
  apiProxyPath : option string;
  webDistFiles : list (string * FileFsRef);
  topLevelFunctions : list (string * FileFsRef);
  nestedFunctions : list (string * FileFsRef)
}.

Record BuildOutput (Route : Type) := {
  output : gmap string (Lambda + FileFsRef);
  out_routes : list Route
}.
Arguments output {Route} _.
Arguments out_routes {Route} _.

Section Builder.
Context {Route : Type}.
Variable host : Host Route.

(** *** File-system calls *)

Definition fs_now (st : State) : FsSnapshot := world host (length (fsLog st)).

Definition of_sum {A} (r : A + JsError) : Result A :=
  match r with inl a => Ok a | inr e => Throw e end.

Definition readFileSync (p : string) : M Buffer := λ st,
  (of_sum (fs_readFile (fs_now st) p), log_fs (ReadFileSync p) st).

Definition lstatSync (p : string) : M Z := λ st,
  (of_sum (fs_lstat (fs_now st) p), log_fs (LstatSync p) st).

Definition lstat (p : string) : M Z := λ st,
  (of_sum (fs_lstat (fs_now st) p), log_fs (Lstat p) st).

Definition existsSync (p : string) : M bool := λ st,
  (Ok (fs_exists (fs_now st) p), log_fs (ExistsSync p) st).

(** Modelled from the spec: [FileFsRef.fromFsPath] of build-utils is not
    under src/.  It makes the file reference of a path (section 3): a new
    object with the mode that a stat of the path returns. *)
Definition fromFsPath (p : string) : M FileFsRef :=
  m ← lstat p;
  i ← new_id;
  mret {| ref_id := i; fsPath := p; mode := m; contentType := None |}.

(** *** The [readFile] callback (lines 230-255)

    A cached [Buffer] is an object, hence truthy whatever its length:
    [if (cached)] is the test for a [Buffer] in the cache. *)
Definition isMissing (e : JsError) : bool :=
  bool_decide (code e = Some "ENOENT") || bool_decide (code e = Some "EISDIR").

Definition readFile (workPath fsPath : string) : M (option string) :=
  let relPath := relative (cwd host) workPath fsPath in
  cached ← gets (λ st, sourceCache st !! relPath);
  match cached with
  | Some (Some buf) => mret (Some (toString host buf))
  | Some None => mret None
  | None =>
      try_catch
        (source ← readFileSync fsPath;
         mode ← lstatSync fsPath;
         entry ← (if isSymbolicLink mode then
                    i ← new_id;
                    mret (IsFsRef {| ref_id := i; fsPath := fsPath; mode := mode;
                                     contentType := None |})
                  else
                    i ← new_id;
                    mret (IsBlob {| blob_id := i; data := source; blob_mode := mode |}));
         _ ← modify (set_fsCache relPath entry);
         _ ← modify (set_sourceCache relPath (Some source));
         mret (Some (toString host source)))
        (λ e,
           if isMissing e then
             _ ← modify (set_sourceCache relPath None);
             mret None
           else throw e)
  end.

(** The resolver run against the [readFile] callback. *)
Fixpoint runTrace (workPath : string) (t : NftRun) : M TraceResult :=
  match t with
  | NftDone r => mret r
  | NftThrow e => throw e
  | NftRead p k => r ← attempt (readFile workPath p); runTrace workPath (k r)
  end.

(** *** The static outputs (lines 177-198) *)

Definition htmlContentType : string := "text/html; charset=utf-8".

Definition staticKey (webDistPath fileName : string) (fileFsRef : FileFsRef) : string :=
  let parsedPath := parse (fsPath fileFsRef) in
  if decide (ext parsedPath ≠ ".html") then fileName
  else
    let fileNameWithoutExtension := basename fileName ".html" in
    let pathWithoutHtmlExtension := join [dir parsedPath; fileNameWithoutExtension] in
    relative (cwd host) webDistPath pathWithoutHtmlExtension.

Definition staticValue (fileFsRef : FileFsRef) : FileFsRef :=
  if decide (ext (parse (fsPath fileFsRef)) ≠ ".html") then fileFsRef
  else {| ref_id := ref_id fileFsRef; fsPath := fsPath fileFsRef;
          mode := mode fileFsRef; contentType := Some htmlContentType |}.

Definition staticStep (webDistPath : string)
    (staticOutputs : gmap string FileFsRef) (entry : string * FileFsRef)
  : gmap string FileFsRef :=
  assign (staticKey webDistPath entry.1 entry.2) (staticValue entry.2) staticOutputs.

Definition staticOutputs (webDistPath : string) (webDistFiles : list (string * FileFsRef))
  : gmap string FileFsRef :=
  foldl (staticStep webDistPath) ∅ webDistFiles.

(** *** One function (lines 215-292) *)

(** [toml?.web?.apiProxyPath?.replace(/^\//, '') ?? 'api'] *)
Definition apiDir (apiProxyPath : option string) : string :=
  match apiProxyPath with
  | Some (String c t as p) => if decide (c = slash) then t else p
  | Some "" => ""
  | None => "api"
  end.

Definition outputName (apiDir funcName : string) : string :=
  join [apiDir; name (parse funcName)].

(** Lines 259-263. *)
Definition surfaceWarning (w : Warning) : M unit :=
  match stack w with
  | Some s =>
      if decide (s = "") then mret tt
      else debug (replace_first "Error: " "Warning: " s)
  | None => mret tt
  end.

(** Lines 265-274. *)
Definition addLambdaFile (workPath : string) (lambdaFiles : gmap string File)
    (filePath : string) : M (gmap string File) :=
  r ← fromFsPath (join [workPath; filePath]);
  mret (assign filePath (IsFsRef r) lambdaFiles).

(** Lines 217-290: the [lambda] of one entry of [functionFiles]. *)
Definition makeLambda (workPath : string) (entry : string * FileFsRef) : M Lambda :=
  let fileFsRef := entry.2 in
  let absEntrypoint := fsPath fileFsRef in
  let relativeEntrypoint := relative (cwd host) workPath absEntrypoint in
  let awsLambdaHandler := getAWSLambdaHandler relativeEntrypoint "handler" in
  let sourceFile := replace_first "/dist/" "/src/" relativeEntrypoint in
  tr ← runTrace workPath (nodeFileTrace host absEntrypoint);
  _ ← foldM (λ _ w, surfaceWarning w) tt (warnings tr);
  lambdaFiles ← foldM (addLambdaFile workPath) ∅ (fileList tr ++ esmFileList tr);
  let lambdaFiles :=
    assign (relative (cwd host) workPath (fsPath fileFsRef)) (IsFsRef fileFsRef)
      lambdaFiles in
  opts ← liftResult (getLambdaOptionsFromFunction host sourceFile);
  mret {| files := lambdaFiles;
          handler := relativeEntrypoint;
          runtime := nodeRuntime host;
          memory := opts.1;
          maxDuration := opts.2;
          shouldAddHelpers := false;
          shouldAddSourcemapSupport := false;
          awsLambdaHandler := awsLambdaHandler |}.

(** The loop body: line 216, [makeLambda], and the assignment of line 291. *)
Definition packageFunction (workPath apiDir : string)
    (lambdaOutputs : gmap string Lambda) (entry : string * FileFsRef)
  : M (gmap string Lambda) :=
  let outputName := outputName apiDir entry.1 in
  lambda ← makeLambda workPath entry;
  mret (assign outputName lambda lambdaOutputs).

(** *** The route configuration (lines 297-308) *)

Definition fallbackHtmlPage (exists200 : bool) : string :=
  if exists200 then "/200" else "/index".

(** The source pattern of line 304: a slash, then the group that matches
    any run of characters. *)
Definition catchAll : string := "/(.*)".

Definition routesConfig (exists200 : bool) : NowConfig :=
  {| rewrites := [ {| source := catchAll; destination := fallbackHtmlPage exists200 |} ];
     cleanUrls := true;
     trailingSlash := false |}.

(** *** [build], from line 167 on *)

Definition functionFiles (inp : BuildInput) : list (string * FileFsRef) :=
  topLevelFunctions inp ++ nestedFunctions inp.

Definition webDistPathOf (inp : BuildInput) : string := join [workPath inp; "web"; "dist"].

Definition lambdaOutputsOf (inp : BuildInput) : M (gmap string Lambda) :=
  foldM (packageFunction (workPath inp) (apiDir (apiProxyPath inp))) ∅ (functionFiles inp).

Definition buildM (inp : BuildInput) : M (BuildOutput Route) :=
  let webDistPath := webDistPathOf inp in
  let staticOutputs := staticOutputs webDistPath (webDistFiles inp) in
  lambdaOutputs ← lambdaOutputsOf inp;
  exists200 ← existsSync (join [webDistPath; "200.html"]);
  let defaultRoutesConfig := getTransformedRoutes host (routesConfig exists200) in
  match error defaultRoutesConfig with
  | Some msg => throw {| code := None; message := msg |}
  | None =>
      mret {| output := (inl <$> lambdaOutputs) ∪ (inr <$> staticOutputs);
              out_routes := routes defaultRoutesConfig |}
  end.

Definition build (inp : BuildInput) : Result (BuildOutput Route) * State :=
  buildM inp init_state.

End Builder.

(** ** Well-formed paths

    The shape of the paths [glob] and [join] produce: segments that are
    neither empty nor [.] nor [..] and hold no slash. *)

Fixpoint has_char (c : ascii) (s : string) : bool :=
  match s with
  | "" => false
  | String x t => bool_decide (x = c) || has_char c t
  end.

Definition normal_seg (s : string) : bool :=
  bool_decide (s ≠ "") && bool_decide (s ≠ ".") && bool_decide (s ≠ "..")
  && negb (has_char slash s).

(** The absolute path with the given segments. *)
Definition abs_path (segs : list string) : string := "/" +:+ join_with "/" segs.

(** The relative path with the given segments. *)
Definition rel_path (segs : list string) : string := join_with "/" segs.

(** Segments that [normalizeString] either drops (empty) or keeps as they
    are. *)
Definition plain_seg (s : string) : Prop := s = "" ∨ normal_seg s = true.


(** ** The course of a run *)

(** What [debug] receives for one warning, when it receives anything. *)
Definition forwardedLine (w : Warning) : option string :=
  match stack w with
  | Some s => if decide (s = "") then None
              else Some (replace_first "Error: " "Warning: " s)
  | None => None
  end.

Definition add_debug (lines : list string) (st : State) : State :=
  {| sourceCache := sourceCache st; fsCache := fsCache st; fsLog := fsLog st;
     debugLog := debugLog st ++ lines; nextId := nextId st |}.

Section Run.
Context {Route : Type}.
Variable host : Host Route.

(** One stretch of a run with work path [W]: a call of the [readFile]
    callback, a whole resolver run, or the packaging of one function. *)
Inductive run_step (W : string) : State → State → Prop :=
| step_readFile q r st st' :
    readFile host W q st = (r, st') → run_step W st st'
| step_trace t r st st' :
    runTrace host W t st = (r, st') → run_step W st st'
| step_package apiDir outs entry r st st' :
    packageFunction host W apiDir outs entry st = (r, st') → run_step W st st'.

(** [later W st st']: [st'] comes after [st] in a run. *)
Definition later (W : string) : State → State → Prop := rtc (run_step W).

(** [trace_at W t st t' st']: the resolver run [t] started in [st] gets,
    by calls of the callback that returned or threw, to the point [t'] in
    state [st']. *)
Inductive trace_at (W : string) : NftRun → State → NftRun → State → Prop :=
| trace_here t st : trace_at W t st t st
| trace_read p k r st st1 t' st' :
    readFile host W p st = (r, st1) →
    trace_at W (k r) st1 t' st' →
    trace_at W (NftRead p k) st t' st'.


(** What [readFile] does for a path that [sourceCache] does not hold:
    lines 236-254 spelled out. *)
Definition firstRead (W p : string) (st : State) : Result (option string) * State :=
  let key := relative (cwd host) W p in
  let st1 := log_fs (ReadFileSync p) st in
  match fs_readFile (fs_now host st) p with
  | inr e =>
      if isMissing e then (Ok None, set_sourceCache key None st1) else (Throw e, st1)
  | inl source =>
      let st2 := log_fs (LstatSync p) st1 in
      match fs_lstat (fs_now host st1) p with
      | inr e =>
          if isMissing e then (Ok None, set_sourceCache key None st2) else (Throw e, st2)
      | inl mode =>
          let i := NewObj (nextId st) in
          let entry :=
            if isSymbolicLink mode then
              IsFsRef {| ref_id := i; fsPath := p; mode := mode; contentType := None |}
            else IsBlob {| blob_id := i; data := source; blob_mode := mode |} in
          (Ok (Some (toString host source)),
           {| sourceCache := <[key := Some source]> (sourceCache st);
              fsCache := <[key := entry]> (fsCache st);
              fsLog := fsLog st2; debugLog := debugLog st; nextId := S (nextId st) |})
      end
  end.

(** [build] after the loop (lines 297-317). *)
Definition finish (inp : BuildInput) (outs : gmap string Lambda) (st1 : State)
  : Result (BuildOutput Route) * State :=
  let webDistPath := webDistPathOf inp in
  let exists200 := fs_exists (fs_now host st1) (join [webDistPath; "200.html"]) in
  let cfg := getTransformedRoutes host (routesConfig exists200) in
  (match error cfg with
   | Some msg => Throw {| code := None; message := msg |}
   | None => Ok {| output := (inl <$> outs)
                            ∪ (inr <$> staticOutputs host webDistPath (webDistFiles inp));
                   out_routes := routes cfg |}
   end,
   log_fs (ExistsSync (join [webDistPath; "200.html"])) st1).

(** Two states that differ at most in what the builder writes and never
    reads, [fsCache] and [debugLog]. *)
Definition obs_eq (st st' : State) : Prop :=
  sourceCache st = sourceCache st' ∧ fsLog st = fsLog st' ∧ nextId st = nextId st'.

(** [m] returns the same from two such states, and keeps them such. *)
Definition respects {A} (m : M A) : Prop :=
  ∀ st st', obs_eq st st' → (m st).1 = (m st').1 ∧ obs_eq (m st).2 (m st').2.

(** The entries of [sourceCache] stay as they are. *)
Definition cache_le (st st' : State) : Prop :=
  ∀ k v, sourceCache st !! k = Some v → sourceCache st' !! k = Some v.

(** From [st] to [st'] the cache has kept its entries and no object
    identity has been given back. *)
Definition grows (st st' : State) : Prop :=
  cache_le st st' ∧ nextId st ≤ nextId st'.

(** [m] only ever adds to [sourceCache] and to the objects made. *)
Definition mono {A} (m : M A) : Prop :=
  ∀ st r st', m st = (r, st') → grows st st'.

(** The objects made between [st] and [st']. *)
Definition made_between (st st' : State) (i : ObjId) : Prop :=
  ∃ n, i = NewObj n ∧ nextId st ≤ n < nextId st'.

End Run.

(** ** A resolver without its warnings *)

Definition muteResult (r : TraceResult) : TraceResult :=
  {| fileList := fileList r; esmFileList := esmFileList r; warnings := [] |}.

Fixpoint mute (t : NftRun) : NftRun :=
  match t with
  | NftDone r => NftDone (muteResult r)
  | NftThrow e => NftThrow e
  | NftRead p k => NftRead p (λ r, mute (k r))
  end.

(** The host whose resolver does as that of [h] and emits no warning. *)
Definition muted {Route} (h : Host Route) : Host Route :=
  {| cwd := cwd h;
     world := world h;
     toString := toString h;
     nodeFileTrace := λ entry, mute (nodeFileTrace h entry);
     getLambdaOptionsFromFunction := getLambdaOptionsFromFunction h;
     nodeRuntime := nodeRuntime h;
     getTransformedRoutes := getTransformedRoutes h |}.

(** ** The specification's reading of the output name *)

(** The output name as the specification words it: the mount prefix joined
    with the whole relative path, extension stripped. *)
Definition outputName_spec (apiDir funcName : string) : string :=
  join [apiDir; default funcName (strip_suffix (ext (parse funcName)) funcName)].

(** ** Reading a manifest *)

Definition isOk {A} (r : Result A) : bool :=
  match r with Ok _ => true | Throw _ => false end.

Definition lambdaAt {Route} (out : BuildOutput Route) (k : string) : option Lambda :=
  match output out !! k with Some (inl l) => Some l | _ => None end.

Definition staticAt {Route} (out : BuildOutput Route) (k : string) : option FileFsRef :=
  match output out !! k with Some (inr r) => Some r | _ => None end.

Definition manifest {Route} (r : Result (BuildOutput Route) * State)
  : option (BuildOutput Route) :=
  match r.1 with Ok out => Some out | Throw _ => None end.

(** ** A sample project

    Work path [/work]; two functions, [graphql.js] and the nested
    [bazinga/bazinga.js], that both load [node_modules/dep/index.js]. *)
Module Sample.

Definition enoent : JsError :=
  {| code := Some "ENOENT"; message := "no such file or directory" |}.
Definition eisdir : JsError :=
  {| code := Some "EISDIR"; message := "illegal operation on a directory" |}.
Definition eacces : JsError :=
  {| code := Some "EACCES"; message := "permission denied" |}.

Definition disk : list (string * (Buffer * Z)) :=
  [ ("/work/api/dist/functions/graphql.js", ([Byte.x67], 33188%Z));
    ("/work/api/dist/functions/bazinga/bazinga.js", ([Byte.x62], 33188%Z));
    ("/work/node_modules/dep/index.js", ([Byte.x64], 33188%Z));
    ("/work/web/dist/index.html", ([Byte.x3c], 33188%Z)) ].

Fixpoint find_file (p : string) (d : list (string * (Buffer * Z))) : option (Buffer * Z) :=
  match d with
  | [] => None
  | (q, v) :: r => if decide (p = q) then Some v else find_file p r
  end.

(** A directory of the disk: a path that some file is below. *)
Definition is_dir (p : string) (d : list (string * (Buffer * Z))) : bool :=
  existsb (λ f, bool_decide (is_Some (strip_prefix (p +:+ "/") f.1))) d.

Definition snapshot (d : list (string * (Buffer * Z))) : FsSnapshot :=
  {| fs_readFile p :=
       match find_file p d with
       | Some v => inl v.1
       | None => inr (if is_dir p d then eisdir else enoent)
       end;
     fs_lstat p :=
       match find_file p d with
       | Some v => inl v.2
       | None => if is_dir p d then inl 16877%Z else inr enoent
       end;
     fs_exists p := bool_decide (is_Some (find_file p d)) || is_dir p d |}.

Definition decode (b : Buffer) : string := String.string_of_list_byte b.

(** The resolver reads the entrypoint and the shared dependency, and
    reports the dependency. *)
Definition trace (ws : list Warning) (entry : string) : NftRun :=
  NftRead entry (λ _,
    NftRead "/work/node_modules/dep/index.js" (λ _,
      NftDone {| fileList := ["node_modules/dep/index.js"];
                 esmFileList := [];
                 warnings := ws |})).

(** Routes are left as the configuration they come from. *)
Definition transform (cfg : NowConfig) : TransformedRoutes NowConfig :=
  {| routes := [cfg]; error := None |}.

Definition host (ws : list Warning) : Host NowConfig :=
  {| cwd := "/";
     world := λ _, snapshot disk;
     toString := decode;
     nodeFileTrace := trace ws;
     getLambdaOptionsFromFunction := λ _, Ok (None, None);
     nodeRuntime := "nodejs18.x";
     getTransformedRoutes := transform |}.

Definition ref (n : nat) (p : string) : FileFsRef :=
  {| ref_id := GlobObj n; fsPath := p; mode := 33188%Z; contentType := None |}.

Definition graphql : string * FileFsRef :=
  ("graphql.js", ref 0 "/work/api/dist/functions/graphql.js").
Definition bazinga : string * FileFsRef :=
  ("bazinga/bazinga.js", ref 1 "/work/api/dist/functions/bazinga/bazinga.js").

Definition input : BuildInput :=
  {| workPath := "/work";
     apiProxyPath := None;
     webDistFiles := [("index.html", ref 2 "/work/web/dist/index.html")];
     topLevelFunctions := [graphql];
     nestedFunctions := [bazinga] |}.

(** The same project with a static file and a second function whose
    output names are those of [graphql.js] and [bazinga/bazinga.js]. *)
Definition bazingaTop : string * FileFsRef :=
  ("bazinga.js", ref 3 "/work/api/dist/functions/bazinga.js").

Definition colliding : BuildInput :=
  {| workPath := "/work";
     apiProxyPath := None;
     webDistFiles := [("api/graphql", ref 2 "/work/web/dist/api/graphql")];
     topLevelFunctions := [graphql; bazingaTop];
     nestedFunctions := [bazinga] |}.

(** The same project with a configuration whose lookup fails for the
    source file of [bazinga/bazinga.js]. *)
Definition optionsError : JsError :=
  {| code := None; message := "Invalid function configuration" |}.

Definition strictOptions (sourceFile : string) : Result (option Z * option Z) :=
  if decide (sourceFile = "api/src/functions/bazinga/bazinga.js")
  then Throw optionsError
  else Ok (None, None).

Definition strictHost : Host NowConfig :=
  {| cwd := "/";
     world := λ _, snapshot disk;
     toString := decode;
     nodeFileTrace := trace [];
     getLambdaOptionsFromFunction := strictOptions;
     nodeRuntime := "nodejs18.x";
     getTransformedRoutes := transform |}.

(** The same project with a resolver that reports, for
    [bazinga/bazinga.js], a file that is not on the disk. *)
Definition danglingTrace (entry : string) : NftRun :=
  if decide (entry = "/work/api/dist/functions/bazinga/bazinga.js")
  then NftRead entry (λ _,
         NftDone {| fileList := ["node_modules/gone/index.js"];
                    esmFileList := [];
                    warnings := [] |})
  else trace [] entry.

Definition danglingHost : Host NowConfig :=
  {| cwd := "/";
     world := λ _, snapshot disk;
     toString := decode;
     nodeFileTrace := danglingTrace;
     getLambdaOptionsFromFunction := λ _, Ok (None, None);
     nodeRuntime := "nodejs18.x";
     getTransformedRoutes := transform |}.

(** The same project with an unreadable file that [graphql.js] loads. *)
Definition lockedSnapshot : FsSnapshot :=
  {| fs_readFile p := if decide (p = "/work/locked.js") then inr eacces
                      else fs_readFile (snapshot disk) p;
     fs_lstat := fs_lstat (snapshot disk);
     fs_exists := fs_exists (snapshot disk) |}.




(** The same unreadable file with a resolver that does not pass the error
    of its callback on: it makes a warning of it and ends with a result. *)
Definition tolerantRest (r : Result (option string)) : NftRun :=
  NftDone {| fileList := [];
             esmFileList := [];
             warnings :=
               match r with
               | Ok _ => []
               | Throw e =>
                   [ {| stack := Some ("Error: Failed to resolve dependency: "
                                       +:+ message e) |} ]
               end |}.

Definition tolerantTrace (entry : string) : NftRun :=
  NftRead entry (λ _, NftRead "/work/locked.js" tolerantRest).

Definition tolerantHost : Host NowConfig :=
  {| cwd := "/";
     world := λ _, lockedSnapshot;
     toString := decode;
     nodeFileTrace := tolerantTrace;
     getLambdaOptionsFromFunction := λ _, Ok (None, None);
     nodeRuntime := "nodejs18.x";
     getTransformedRoutes := transform |}.

(** A route transformation that makes routes of the two modifiers as well:
    clean URLs and the removal of trailing slashes become redirects, which
    go before a check of the file system and the rewrites. *)
Inductive ServedRoute :=
| RedirectIndex
| RedirectHtmlExtension
| RedirectTrailingSlash
| HandleFilesystem
| RewriteTo (src dest : string).

Definition expand (cfg : NowConfig) : TransformedRoutes ServedRoute :=
  {| routes :=
       (if cleanUrls cfg then [RedirectIndex; RedirectHtmlExtension] else [])
       ++ (if trailingSlash cfg then [] else [RedirectTrailingSlash])
       ++ HandleFilesystem :: map (λ rw, RewriteTo (source rw) (destination rw)) (rewrites cfg);
     error := None |}.

Definition expandingHost : Host ServedRoute :=
  {| cwd := "/";
     world := λ _, snapshot disk;
     toString := decode;
     nodeFileTrace := trace [];
     getLambdaOptionsFromFunction := λ _, Ok (None, None);
     nodeRuntime := "nodejs18.x";
     getTransformedRoutes := expand |}.

(** A project mounted at the root with a function file and a document
    named [__proto__]. *)
Definition protoInput : BuildInput :=
  {| workPath := "/work";
     apiProxyPath := Some "/";
     webDistFiles := [("__proto__.html", ref 2 "/work/web/dist/__proto__.html")];
     topLevelFunctions :=
       [graphql; ("__proto__.js", ref 3 "/work/api/dist/functions/__proto__.js")];
     nestedFunctions := [] |}.

(** A static root with a document whose name has two [.html] and a file
    that is named [.html] and nothing else. *)
Definition pages : BuildInput :=
  {| workPath := "/work";
     apiProxyPath := None;
     webDistFiles := [("page.html.html", ref 0 "/work/web/dist/page.html.html");
                      ("blog/.html", ref 1 "/work/web/dist/blog/.html")];
     topLevelFunctions := [];
     nestedFunctions := [] |}.

End Sample.

(** ** The rest of [build]: what runs before line 167 *)

(** [s.startsWith(pre)] *)
Definition startsWith (pre s : string) : bool :=
  bool_decide (is_Some (strip_prefix pre s)).

(** One round of the loop of lines 59-64 over the environment: the value
    of [key] is copied to [REDWOOD_ENV_key] unless that name is taken.  A
    name that is read and not there is [undefined], which [process.env]
    stores as a string. *)
Definition propagateStep (env : gmap string string) (key : string) : gmap string string :=
  let newKey := "REDWOOD_ENV_" +:+ key in
  if decide (is_Some (env !! newKey)) then env
  else <[newKey := default "undefined" (env !! key)]> env.

(** Lines 57-64; [keys] is [Object.keys(process.env)], listed before the
    loop starts. *)
Definition propagateEnv (keys : list string) (env : gmap string string)
  : gmap string string :=
  foldl propagateStep env (filter (λ key, startsWith "VERCEL_" key = true) keys).

(** A value of [package.json]: a string, or something else. *)
Inductive JsValue :=
| JsString (s : string)
| JsOther.

(** The fields of [package.json] that [build] reads; the file itself may be
    missing ([readConfigFile] then returns [null]). *)
Record PackageJson := {
  scripts : option (gmap string JsValue);
  devDependencies : option (gmap string string)
}.

(** [hasScript] (lines 325-328). *)
Definition hasScript (scriptName : string) (pkg : option PackageJson) : bool :=
  let scripts := default ∅ (pkg ≫= scripts) in
  match scripts !! scriptName with
  | Some (JsString _) => true
  | _ => false
  end.

Inductive LogLine :=
| DebugLine (s : string)
| ConsoleLog (s : string).

Inductive BuildAction :=
| ExecCommand (cmd : string)
| RunPackageJsonScript (script : string).

(** The double quote, which the messages of lines 133-142 hold. *)
Definition quote : string := String (ascii_of_nat 34) "".

Definition legacyCommand : string :=
  "yarn rw build && yarn rw db up --no-db-client --auto-approve && yarn rw dataMigrate up".

Definition deployCommand : string := "yarn rw deploy vercel".

(** Lines 132-165: what [build] logs and which command it runs.
    [validRange] and [intersects] are those of [semver]; of [validRange]
    only whether its result is truthy matters.  [buildCommand] is
    [config.buildCommand], [None] when it is not set. *)
Definition chooseBuild (validRange : string → bool) (intersects : string → string → bool)
    (buildCommand : option string) (pkg : option PackageJson)
  : list LogLine * BuildAction :=
  match buildCommand with
  | Some (String _ _ as cmd) =>
      ([DebugLine ("Executing build command " +:+ quote +:+ cmd +:+ quote)],
       ExecCommand cmd)
  | _ =>
      if hasScript "vercel-build" pkg then
        ([DebugLine ("Executing " +:+ quote +:+ "yarn vercel-build" +:+ quote)],
         RunPackageJsonScript "vercel-build")
      else if hasScript "build" pkg then
        ([DebugLine ("Executing " +:+ quote +:+ "yarn build" +:+ quote)],
         RunPackageJsonScript "build")
      else
        let devDependencies := default ∅ (pkg ≫= devDependencies) in
        match devDependencies !! "@redwoodjs/core" with
        | Some (String _ _ as versionRange) =>
            if negb (validRange versionRange) then
              ([ConsoleLog
                  "WARNING: Unable to detect RedwoodJS version in package.json devDependencies"],
               ExecCommand deployCommand)
            else if intersects versionRange "<0.25.0" then ([], ExecCommand legacyCommand)
            else ([], ExecCommand deployCommand)
        | _ =>
            ([ConsoleLog
                "WARNING: Unable to detect RedwoodJS version in package.json devDependencies"],
             ExecCommand deployCommand)
        end
  end.

(** ** The attempts to read a path *)

Section Attempts.
Context {Route : Type}.
Variable host : Host Route.

(** The attempt to read [p] that starts with the [i]-th file-system call
    of the run fails with [e]: at [readFileSync], which is that call, or
    at the [lstatSync] that follows it. *)
Definition attemptFails (i : nat) (p : string) (e : JsError) : Prop :=
  fs_readFile (world host i) p = inr e
  ∨ ((∃ source, fs_readFile (world host i) p = inl source)
     ∧ fs_lstat (world host (S i)) p = inr e).

(** Every [readFileSync] of the log for a path that [sourceCache] does not
    hold, and every one that was followed by another for the same
    project-relative path, began an attempt that failed with an error that
    is not cached. *)
Definition retried (W : string) (st : State) : Prop :=
  (∀ i p, fsLog st !! i = Some (ReadFileSync p) →
          sourceCache st !! relative (cwd host) W p = None →
          ∃ e, attemptFails i p e ∧ isMissing e = false)
  ∧ (∀ i j p q, i < j →
       fsLog st !! i = Some (ReadFileSync p) → fsLog st !! j = Some (ReadFileSync q) →
       relative (cwd host) W p = relative (cwd host) W q →
       ∃ e, attemptFails i p e ∧ isMissing e = false).

End Attempts.

(** [fsCache] holds an entry exactly for the paths whose content
    [sourceCache] holds: a blob with that content for a file, a reference
    for a symbolic link. *)
Definition coherent (st : State) : Prop :=
  ∀ key,
    match fsCache st !! key with
    | Some (IsBlob b) =>
        sourceCache st !! key = Some (Some (data b))
        ∧ isSymbolicLink (blob_mode b) = false
    | Some (IsFsRef r) =>
        (∃ source, sourceCache st !! key = Some (Some source))
        ∧ isSymbolicLink (mode r) = true
    | None => sourceCache st !! key = None ∨ sourceCache st !! key = Some None
    end.

(** [I] holds after [m] whenever it held before. *)
Definition preserves {A} (I : State → Prop) (m : M A) : Prop :=
  ∀ st r st', I st → m st = (r, st') → I st'.

(** From [st] to [st'] the caches are as they were and no file was read. *)
Definition quiet (st st' : State) : Prop :=
  sourceCache st' = sourceCache st ∧ fsCache st' = fsCache st
  ∧ ∃ calls, fsLog st' = fsLog st ++ calls
             ∧ Forall (λ c, ∀ q, c ≠ ReadFileSync q) calls.
(** ** The examples of Node's documentation of [path] *)

Example parse_documented :
  parse "/home/user/dir/file.txt"
  = {| root := "/"; dir := "/home/user/dir"; base := "file.txt"; ext := ".txt";
       name := "file" |}.
Proof. reflexivity. Qed.

Example extname_documented :
  ext (parse "index.html") = ".html" ∧ ext (parse "index.coffee.md") = ".md"
  ∧ ext (parse "index.") = "." ∧ ext (parse "index") = ""
  ∧ ext (parse ".index") = "" ∧ ext (parse ".index.md") = ".md".
Proof. by vm_compute. Qed.

Example basename_documented : basename "/foo/bar/baz/asdf/quux.html" ".html" = "quux".
Proof. reflexivity. Qed.

Example join_documented : join ["/foo"; "bar"; "baz/asdf"; "quux"; ".."] = "/foo/bar/baz/asdf".
Proof. reflexivity. Qed.

Example normalize_documented : normalize "/foo/bar//baz/asdf/quux/.." = "/foo/bar/baz/asdf".
Proof. reflexivity. Qed.

Example relative_documented :
  relative "/" "/data/orandea/test/aaa" "/data/orandea/impl/bbb" = "../../impl/bbb".
Proof. reflexivity. Qed.

Example replace_first_once :
  replace_first "Error: " "Warning: " "Error: a Error: b" = "Warning: a Error: b".
Proof. reflexivity. Qed.

Example apiDir_examples :
  apiDir None = "api" ∧ apiDir (Some "/.redwood/functions") = ".redwood/functions"
  ∧ apiDir (Some "//x") = "/x".
Proof. by vm_compute. Qed.

(** ** Agreement with the character loops, on all short paths *)

Example parse_agrees_with_scan :
  forallb (λ p, bool_decide (PathScan.parse p = parse p))
    (PathScan.words PathScan.alphabet 6) = true.
Proof. by vm_compute. Qed.

Example basename_agrees_with_scan :
  forallb (λ ps, bool_decide (PathScan.basename ps.1 ps.2 = basename ps.1 ps.2))
    (p ← PathScan.words PathScan.alphabet 5; (λ s, (p, s)) <$> PathScan.suffixes) = true.
Proof. by vm_compute. Qed.

Example normalizeString_agrees_with_scan :
  forallb (λ pa, bool_decide (PathScan.normalizeString pa.1 pa.2 = normalizeString pa.1 pa.2))
    (p ← PathScan.words PathScan.alphabet 7; [(p, true); (p, false)]) = true.
Proof. by vm_compute. Qed.

Example relative_agrees_with_scan :
  forallb (λ ft, bool_decide (PathScan.relative "/a/." ft.1 ft.2 = relative "/a/." ft.1 ft.2))
    (f ← PathScan.words PathScan.alphabet 4;
     (λ t, (f, t)) <$> PathScan.words PathScan.alphabet 4) = true.
Proof. by vm_compute. Qed.

(** ** Facts on strings *)

Lemma str_app_nil_l (s : string) : "" +:+ s = s.
Proof. reflexivity. Qed.

Lemma str_app_cons (c : ascii) (s t : string) : String c s +:+ t = String c (s +:+ t).
Proof. reflexivity. Qed.

Lemma str_app_nil_r (s : string) : s +:+ "" = s.
Proof. induction s as [|c s IH]; [done|]. by rewrite str_app_cons, IH. Qed.

Lemma str_app_assoc (s t u : string) : (s +:+ t) +:+ u = s +:+ t +:+ u.
Proof. induction s as [|c s IH]; [done|]. by rewrite !str_app_cons, IH. Qed.

Lemma str_app_eq_nil (s t : string) : s +:+ t = "" → s = "" ∧ t = "".
Proof. destruct s; [done|]. rewrite str_app_cons. done. Qed.

Lemma str_length_app (s t : string) :
  String.length (s +:+ t) = String.length s + String.length t.
Proof. induction s as [|c s IH]; [done|]. rewrite str_app_cons. simpl. by rewrite IH. Qed.

Lemma has_char_app c s t : has_char c (s +:+ t) = has_char c s || has_char c t.
Proof.
  induction s as [|x s IH]; [done|]. rewrite str_app_cons. simpl. rewrite IH.
  by rewrite orb_assoc.
Qed.

Lemma rsplit_none c s : has_char c s = false → rsplit c s = None.
Proof.
  induction s as [|x s IH]; [done|]. simpl. intros [Hx Hs]%orb_false_elim.
  rewrite (IH Hs). apply bool_decide_eq_false in Hx. by rewrite decide_False.
Qed.

Lemma rsplit_app c a b :
  has_char c b = false → rsplit c (a +:+ String c b) = Some (a, b).
Proof.
  intros Hb. induction a as [|x a IH].
  - rewrite str_app_nil_l. simpl. rewrite (rsplit_none _ _ Hb). by rewrite decide_True.
  - rewrite str_app_cons. simpl. by rewrite IH.
Qed.

Lemma rstrip_nonempty_tail c a b :
  b ≠ "" → has_char c b = false → rstrip c (a +:+ b) = a +:+ b.
Proof.
  intros Hne Hb. induction a as [|x a IH].
  - rewrite str_app_nil_l. clear Hne. induction b as [|y b IHb]; [done|].
    simpl in *. apply orb_false_elim in Hb as [Hy Hb]. rewrite (IHb Hb).
    apply bool_decide_eq_false in Hy. destruct b; simpl; [by rewrite decide_False|done].
  - rewrite str_app_cons. simpl. rewrite IH.
    destruct (a +:+ b) eqn:E; [|done]. by apply str_app_eq_nil in E as [_ ?].
Qed.

Lemma rstrip_nochar c b : has_char c b = false → rstrip c b = b.
Proof.
  destruct (decide (b = "")) as [->|Hne]; [done|]. intros.
  by rewrite <-(str_app_nil_l b), rstrip_nonempty_tail.
Qed.

Lemma strip_suffix_unfold suf s :
  strip_suffix suf s =
    if decide (s = suf) then Some ""
    else match s with
         | "" => None
         | String x t => String x <$> strip_suffix suf t
         end.
Proof. by destruct s. Qed.

Lemma strip_suffix_app suf s : strip_suffix suf (s +:+ suf) = Some s.
Proof.
  induction s as [|x s IH]; rewrite strip_suffix_unfold.
  - by rewrite str_app_nil_l, decide_True.
  - rewrite str_app_cons, IH. simpl.
    rewrite decide_False; [done|]. intros E.
    apply (f_equal String.length) in E. rewrite <-str_app_cons, str_length_app in E.
    simpl in E. lia.
Qed.

Lemma strip_suffix_Some suf s r : strip_suffix suf s = Some r → s = r +:+ suf.
Proof.
  revert r. induction s as [|x s IH]; intros r; rewrite strip_suffix_unfold.
  - case_decide; [|done]. intros [= <-]. by subst.
  - case_decide as E; [intros [= <-]; by subst|].
    destruct (strip_suffix suf s) eqn:E'; [|done]. simpl. intros [= <-].
    by rewrite str_app_cons, (IH _ eq_refl).
Qed.

Lemma slash_app (s : string) : "/" +:+ s = String slash s.
Proof. reflexivity. Qed.

Lemma split_ext_ext dd n e :
  n ≠ "" → e ≠ "" → has_char dot e = false →
  split_ext dd (n +:+ String dot e) = (n, String dot e).
Proof.
  intros Hn He Hd. unfold split_ext. rewrite (rsplit_app _ _ _ Hd).
  rewrite decide_False by done.
  replace (bool_decide (n +:+ String dot e = "..")) with false.
  { by rewrite andb_false_r. }
  symmetry. apply bool_decide_eq_false. intros E.
  destruct n as [|c n]; [done|]. rewrite str_app_cons in E.
  destruct n as [|c' n]; [|destruct n; simpl in E; discriminate].
  rewrite str_app_nil_l in E. by simplify_eq.
Qed.

Lemma has_char_head c x s : has_char c (String x s) = false → x ≠ c.
Proof. simpl. intros [H _]%orb_false_elim. by apply bool_decide_eq_false in H. Qed.

(** [parse] of a directory part followed by a base name. *)
Lemma parse_dir_base d b :
  d ≠ "" → b ≠ "" → has_char slash b = false →
  parse (d +:+ "/" +:+ b) =
    {| root := if starts_with_slash d then "/" else ""; dir := d; base := b;
       ext := (split_ext true b).2; name := (split_ext true b).1 |}.
Proof.
  intros Hd Hb Hs. destruct d as [|c0 d]; [done|].
  rewrite slash_app, str_app_cons. unfold parse. simpl starts_with_slash.
  destruct (bool_decide (c0 = slash)) eqn:E.
  - assert (Hr : rstrip slash (d +:+ String slash b) = d +:+ String slash b).
    { rewrite <-slash_app, <-str_app_assoc. by apply rstrip_nonempty_tail. }
    rewrite Hr, decide_False.
    + rewrite (rsplit_app _ _ _ Hs). apply bool_decide_eq_true in E as ->.
      by rewrite slash_app.
    + intros [_ ?]%str_app_eq_nil. done.
  - assert (Hr : rstrip slash (String c0 (d +:+ String slash b))
                 = String c0 (d +:+ String slash b)).
    { rewrite <-str_app_cons, <-slash_app, <-str_app_assoc. by apply rstrip_nonempty_tail. }
    rewrite Hr, decide_False by done.
    by rewrite <-str_app_cons, (rsplit_app _ _ _ Hs), str_app_nil_l.
Qed.

(** [parse] of a bare base name. *)
Lemma parse_base b :
  b ≠ "" → has_char slash b = false →
  parse b = {| root := ""; dir := ""; base := b;
               ext := (split_ext true b).2; name := (split_ext true b).1 |}.
Proof.
  intros Hb Hs. destruct b as [|c0 b]; [done|]. unfold parse.
  rewrite (bool_decide_eq_false_2 _ (has_char_head _ _ _ Hs)).
  rewrite (rstrip_nochar _ _ Hs), decide_False by done.
  by rewrite (rsplit_none _ _ Hs).
Qed.

(** [parse] of a base name directly under the root. *)
Lemma parse_root_base b :
  b ≠ "" → has_char slash b = false →
  parse ("/" +:+ b) = {| root := "/"; dir := "/"; base := b;
                         ext := (split_ext false b).2; name := (split_ext false b).1 |}.
Proof.
  intros Hb Hs. rewrite slash_app. unfold parse.
  rewrite bool_decide_eq_true_2 by done.
  rewrite (rstrip_nochar _ _ Hs), decide_False by done.
  by rewrite (rsplit_none _ _ Hs).
Qed.

(** ** Segments, normalisation and relative paths *)

Lemma split_on_nonempty c s : split_on c s ≠ [].
Proof.
  induction s as [|x s IH]; [done|]. simpl. case_decide; [done|].
  by destruct (split_on c s).
Qed.

Lemma split_on_app c s t :
  split_on c (s +:+ String c t) = split_on c s ++ split_on c t.
Proof.
  induction s as [|x s IH].
  - rewrite str_app_nil_l. simpl. by rewrite decide_True.
  - rewrite str_app_cons. simpl. case_decide; [by rewrite IH|].
    rewrite IH. pose proof (split_on_nonempty c s).
    by destruct (split_on c s).
Qed.

Lemma split_on_nochar c s : has_char c s = false → split_on c s = [s].
Proof.
  induction s as [|x s IH]; [done|]. simpl. intros [Hx Hs]%orb_false_elim.
  apply bool_decide_eq_false in Hx. rewrite decide_False by done.
  by rewrite (IH Hs).
Qed.

Lemma normal_seg_spec s :
  normal_seg s = true ↔ s ≠ "" ∧ s ≠ "." ∧ s ≠ ".." ∧ has_char slash s = false.
Proof.
  unfold normal_seg. rewrite !andb_true_iff, !bool_decide_eq_true, negb_true_iff.
  tauto.
Qed.

Lemma join_with_cons sp s r :
  r ≠ [] → join_with sp (s :: r) = s +:+ sp +:+ join_with sp r.
Proof. by destruct r. Qed.

Lemma join_with_snoc sp l b :
  l ≠ [] → join_with sp (l ++ [b]) = join_with sp l +:+ sp +:+ b.
Proof.
  induction l as [|s l IH]; [done|]. intros _.
  destruct l as [|s' l]; [done|].
  rewrite <-app_comm_cons, join_with_cons by done.
  rewrite IH by done. rewrite (join_with_cons _ s) by done.
  by rewrite !str_app_assoc.
Qed.

Lemma join_with_nonempty sp l :
  l ≠ [] → Forall (λ s, s ≠ "") l → join_with sp l ≠ "".
Proof.
  destruct l as [|s l]; [done|]. intros _ Hl. apply Forall_cons in Hl as [Hs _].
  destruct l; [done|]. rewrite join_with_cons by done.
  intros [? _]%str_app_eq_nil. done.
Qed.

Lemma split_join ss :
  ss ≠ [] → Forall (λ s, has_char slash s = false) ss →
  split_on slash (join_with "/" ss) = ss.
Proof.
  induction ss as [|s ss IH]; [done|]. intros _ Hall.
  apply Forall_cons in Hall as [Hs Hss].
  destruct ss as [|s' ss]; [by apply split_on_nochar|].
  rewrite join_with_cons, slash_app, split_on_app by done.
  rewrite split_on_nochar by done. by rewrite IH.
Qed.

Lemma norm_fold_plain a l st :
  Forall plain_seg l →
  foldl (norm_step a) st l = rev (filter (λ s, s ≠ "") l) ++ st.
Proof.
  revert st. induction l as [|s l IH]; intros st Hall; [done|].
  apply Forall_cons in Hall as [Hs Hl]. simpl. rewrite (IH _ Hl).
  destruct Hs as [->|Hs%normal_seg_spec].
  - by rewrite filter_cons_False by (intros ?; done).
  - destruct Hs as (? & ? & ? & _).
    rewrite filter_cons_True by done. unfold norm_step.
    rewrite !decide_False by done. simpl. by rewrite <-(assoc_L (++)).
Qed.

Lemma normalizeString_plain a p :
  Forall plain_seg (split_on slash p) →
  normalizeString p a = join_with "/" (filter (λ s, s ≠ "") (split_on slash p)).
Proof.
  intros H. unfold normalizeString. rewrite (norm_fold_plain _ _ _ H).
  by rewrite (right_id_L [] (++)), rev_involutive.
Qed.

Lemma normal_plain ss : forallb normal_seg ss = true → Forall plain_seg ss.
Proof.
  rewrite forallb_forall, Forall_forall. intros H s Hs. right.
  apply H. by apply list_elem_of_In.
Qed.

Lemma normal_nochar ss :
  forallb normal_seg ss = true → Forall (λ s, has_char slash s = false) ss.
Proof.
  rewrite forallb_forall, Forall_forall. intros H s Hs.
  by apply normal_seg_spec, H, list_elem_of_In.
Qed.

Lemma normal_nonempty ss :
  forallb normal_seg ss = true → Forall (λ s, s ≠ "") ss.
Proof.
  rewrite forallb_forall, Forall_forall. intros H s Hs.
  by apply normal_seg_spec, H, list_elem_of_In.
Qed.

Lemma filter_normal ss :
  forallb normal_seg ss = true → filter (λ s, s ≠ "") ss = ss.
Proof.
  intros H%normal_nonempty. induction H as [|s ss Hs _ IH]; [done|].
  by rewrite filter_cons_True, IH.
Qed.

(** The segments of a well-formed relative path, empty ones set aside. *)
Lemma split_rel_path ss :
  forallb normal_seg ss = true →
  Forall plain_seg (split_on slash (rel_path ss))
  ∧ filter (λ s, s ≠ "") (split_on slash (rel_path ss)) = ss.
Proof.
  intros H. unfold rel_path. destruct (decide (ss = [])) as [->|Hne].
  - simpl. split; [|done]. constructor; [by left|done].
  - rewrite split_join by (done || by apply normal_nochar).
    split; [by apply normal_plain | by apply filter_normal].
Qed.

Lemma split_abs_path ss :
  forallb normal_seg ss = true →
  Forall plain_seg (split_on slash (abs_path ss))
  ∧ filter (λ s, s ≠ "") (split_on slash (abs_path ss)) = ss.
Proof.
  intros [H1 H2]%split_rel_path. unfold abs_path.
  rewrite <-(str_app_nil_l ("/" +:+ _)), slash_app, split_on_app. simpl.
  split; [constructor; [by left|done]|].
  by rewrite filter_cons_False by (intros ?; done).
Qed.

Lemma ends_with_slash_app a b : b ≠ "" → ends_with_slash (a +:+ b) = ends_with_slash b.
Proof.
  intros Hb. induction a as [|x a IH]; [done|]. rewrite str_app_cons. simpl.
  destruct (a +:+ b) eqn:E; [|done]. by apply str_app_eq_nil in E as [_ ?].
Qed.

Lemma ends_with_slash_nochar b : has_char slash b = false → ends_with_slash b = false.
Proof.
  induction b as [|x b IH]; [done|]. simpl. intros [Hx Hb]%orb_false_elim.
  destruct b; [done|]. by apply IH.
Qed.

Lemma ends_with_slash_rel_path rs :
  rs ≠ [] → forallb normal_seg rs = true → ends_with_slash (rel_path rs) = false.
Proof.
  intros Hne H. destruct rs as [|r rs _] using rev_ind; [done|].
  rewrite forallb_app in H. apply andb_true_iff in H as [_ H]. simpl in H.
  rewrite andb_true_r in H. apply normal_seg_spec in H as (Hr & _ & _ & Hs).
  unfold rel_path. destruct (decide (rs = [])) as [->|Hrs].
  - by apply ends_with_slash_nochar.
  - rewrite join_with_snoc, <-str_app_assoc, ends_with_slash_app by done.
    by apply ends_with_slash_nochar.
Qed.

Lemma abs_path_inj xs ys :
  forallb normal_seg xs = true → forallb normal_seg ys = true →
  abs_path xs = abs_path ys → xs = ys.
Proof.
  intros [_ Hx]%split_abs_path [_ Hy]%split_abs_path E.
  by rewrite <-Hx, <-Hy, E.
Qed.

(** [normalize] leaves an absolute path with plain segments and no trailing
    slash to its non-empty segments. *)
Lemma normalize_abs_plain p :
  starts_with_slash p = true →
  Forall plain_seg (split_on slash p) →
  (join_with "/" (filter (λ s, s ≠ "") (split_on slash p)) ≠ "" →
   ends_with_slash p = false) →
  normalize p = abs_path (filter (λ s, s ≠ "") (split_on slash p)).
Proof.
  intros Habs Hplain Htr. unfold normalize.
  rewrite decide_False by (by destruct p).
  rewrite Habs. simpl negb. rewrite (normalizeString_plain _ _ Hplain).
  unfold abs_path. case_decide as E; [by rewrite E|].
  by rewrite (Htr E).
Qed.

Lemma normalize_abs_path ss :
  forallb normal_seg ss = true → normalize (abs_path ss) = abs_path ss.
Proof.
  intros H. destruct (split_abs_path _ H) as [Hp Hf].
  rewrite normalize_abs_plain; [by rewrite Hf|done|done|].
  rewrite Hf. intros Hne. destruct (decide (ss = [])) as [->|Hss]; [done|].
  unfold abs_path. rewrite ends_with_slash_app by done.
  by apply ends_with_slash_rel_path.
Qed.

Lemma rel_path_nonempty rs :
  rs ≠ [] → forallb normal_seg rs = true → rel_path rs ≠ "".
Proof. intros ? H. apply join_with_nonempty; [done|]. by apply normal_nonempty. Qed.

Lemma forallb_normal_app xs ys :
  forallb normal_seg xs = true → forallb normal_seg ys = true →
  forallb normal_seg (xs ++ ys) = true.
Proof. intros. rewrite forallb_app. by apply andb_true_iff. Qed.

(** [join] of a well-formed absolute path and a well-formed relative one. *)
Lemma join_abs_rel ss rs :
  forallb normal_seg ss = true → forallb normal_seg rs = true →
  join [abs_path ss; rel_path rs] = abs_path (ss ++ rs).
Proof.
  intros Hs Hr. unfold join. destruct (decide (rs = [])) as [->|Hne].
  - simpl rel_path. rewrite filter_cons_True by done.
    rewrite filter_cons_False by (intros ?; done). rewrite filter_nil.
    simpl join_with. rewrite (right_id_L [] (++)). by apply normalize_abs_path.
  - pose proof (rel_path_nonempty _ Hne Hr).
    rewrite filter_cons_True, filter_cons_True, filter_nil by done.
    rewrite join_with_cons by done. simpl join_with.
    destruct (split_abs_path _ Hs) as [Hp1 Hf1].
    destruct (split_rel_path _ Hr) as [Hp2 Hf2].
    assert (Hsplit : split_on slash (abs_path ss +:+ "/" +:+ rel_path rs)
                     = split_on slash (abs_path ss) ++ split_on slash (rel_path rs)).
    { by rewrite slash_app, split_on_app. }
    rewrite normalize_abs_plain.
    + by rewrite Hsplit, filter_app, Hf1, Hf2.
    + done.
    + rewrite Hsplit. by apply Forall_app.
    + intros _. rewrite <-str_app_assoc, ends_with_slash_app by done.
      by apply ends_with_slash_rel_path.
Qed.

(** [join] of two well-formed relative paths. *)
Lemma join_rel_rel ss rs :
  ss ≠ [] → rs ≠ [] →
  forallb normal_seg ss = true → forallb normal_seg rs = true →
  join [rel_path ss; rel_path rs] = rel_path (ss ++ rs).
Proof.
  intros Hs0 Hr0 Hs Hr. unfold join.
  pose proof (rel_path_nonempty _ Hs0 Hs). pose proof (rel_path_nonempty _ Hr0 Hr).
  rewrite filter_cons_True, filter_cons_True, filter_nil by done.
  rewrite join_with_cons by done. simpl join_with.
  destruct (split_rel_path _ Hs) as [Hp1 Hf1].
  destruct (split_rel_path _ Hr) as [Hp2 Hf2].
  assert (Hsplit : split_on slash (rel_path ss +:+ "/" +:+ rel_path rs)
                   = split_on slash (rel_path ss) ++ split_on slash (rel_path rs)).
  { by rewrite slash_app, split_on_app. }
  assert (Hrel : starts_with_slash (rel_path ss +:+ "/" +:+ rel_path rs) = false).
  { destruct ss as [|s ss]; [done|]. simpl in Hs. apply andb_true_iff in Hs as [Hs _].
    apply normal_seg_spec in Hs as (Hne & _ & _ & Hc).
    destruct s as [|c s]; [done|]. apply has_char_head in Hc.
    unfold rel_path. destruct ss; simpl; rewrite ?str_app_cons; simpl;
      by apply bool_decide_eq_false. }
  unfold normalize. rewrite decide_False.
  2:{ intros [? _]%str_app_eq_nil. done. }
  rewrite Hrel. simpl negb.
  rewrite normalizeString_plain by (rewrite Hsplit; by apply Forall_app).
  rewrite Hsplit, filter_app, Hf1, Hf2.
  rewrite decide_False.
  2:{ apply rel_path_nonempty; [by destruct ss|by apply forallb_normal_app]. }
  rewrite <-str_app_assoc, ends_with_slash_app by done.
  by rewrite ends_with_slash_rel_path.
Qed.

Lemma resolve_abs_path cwd ss :
  forallb normal_seg ss = true → resolve cwd (abs_path ss) = abs_path ss.
Proof.
  intros H. destruct (split_abs_path _ H) as [Hp Hf]. unfold resolve.
  rewrite decide_False by done.
  change (starts_with_slash (abs_path ss)) with true. cbv iota.
  change (starts_with_slash (abs_path ss +:+ "/")) with true. cbv iota.
  simpl negb.
  assert (Hsplit : split_on slash (abs_path ss +:+ "/")
                   = split_on slash (abs_path ss) ++ [""]).
  { apply (split_on_app slash (abs_path ss) ""). }
  rewrite normalizeString_plain.
  - rewrite Hsplit, filter_app, Hf.
    rewrite filter_cons_False by (intros ?; done).
    by rewrite filter_nil, (right_id_L [] (++)).
  - rewrite Hsplit. apply Forall_app. split; [done|]. constructor; [by left|done].
Qed.

Lemma segs_after_root_abs_path ss :
  forallb normal_seg ss = true → segs_after_root (abs_path ss) = ss.
Proof.
  intros H. destruct (decide (ss = [])) as [->|Hne]; [done|].
  pose proof (rel_path_nonempty _ Hne H) as Hr. unfold abs_path, rel_path in *.
  rewrite slash_app. unfold segs_after_root.
  destruct (join_with "/" ss) eqn:E; [done|]. rewrite <-E.
  apply split_join; [done|by apply normal_nochar].
Qed.

Lemma strip_common_prefix xs ys : strip_common xs (xs ++ ys) = ([], ys).
Proof.
  induction xs as [|x xs IH]; [by destruct ys|]. simpl. by rewrite decide_True.
Qed.

(** [relative] from a directory to a path below it. *)
Lemma relative_below cwd ws rs :
  rs ≠ [] → forallb normal_seg ws = true → forallb normal_seg rs = true →
  relative cwd (abs_path ws) (abs_path (ws ++ rs)) = rel_path rs.
Proof.
  intros Hne Hw Hr. pose proof (forallb_normal_app _ _ Hw Hr) as Hwr.
  assert (Hdiff : abs_path ws ≠ abs_path (ws ++ rs)).
  { intros E%abs_path_inj; [|done..]. apply (f_equal length) in E.
    rewrite length_app in E. destruct rs; [done|]. simpl in E. lia. }
  unfold relative. rewrite decide_False by done.
  rewrite !resolve_abs_path by done. rewrite decide_False by done.
  rewrite !segs_after_root_abs_path by done.
  by rewrite strip_common_prefix.
Qed.

(** ** Last segments *)

Lemma rsplit_app_nochar c r suf :
  has_char c suf = false →
  rsplit c (r +:+ suf)
  = match rsplit c r with Some (u, v) => Some (u, v +:+ suf) | None => None end.
Proof.
  intros Hs. induction r as [|y r IH].
  - rewrite str_app_nil_l. by rewrite rsplit_none.
  - rewrite str_app_cons. simpl. rewrite IH.
    destruct (rsplit c r) as [[u v]|]; [done|]. by case_decide.
Qed.

(** A slash-free suffix of a path is a suffix of its last segment. *)
Lemma strip_suffix_last_seg suf d x r :
  has_char slash suf = false → has_char slash x = false →
  strip_suffix suf (d +:+ "/" +:+ x) = Some r →
  ∃ v, x = v +:+ suf.
Proof.
  intros Hs Hx E%strip_suffix_Some.
  apply (f_equal (rsplit slash)) in E.
  rewrite slash_app, (rsplit_app _ _ _ Hx), (rsplit_app_nochar _ _ _ Hs) in E.
  destruct (rsplit slash r) as [[u v]|]; [|done]. injection E as _ ->. eauto.
Qed.

Lemma rel_path_snoc_cases ds b :
  rel_path (ds ++ [b]) = b ∧ ds = []
  ∨ rel_path (ds ++ [b]) = rel_path ds +:+ "/" +:+ b ∧ ds ≠ [].
Proof.
  destruct (decide (ds = [])) as [->|Hne]; [by left|right].
  split; [|done]. by apply join_with_snoc.
Qed.

(** [parse] of an absolute path, by its last segment. *)
Lemma parse_abs_path_snoc l b :
  b ≠ "" → has_char slash b = false →
  ∃ dd, parse (abs_path (l ++ [b]))
        = {| root := "/"; dir := abs_path l; base := b;
             ext := (split_ext dd b).2; name := (split_ext dd b).1 |}.
Proof.
  intros Hb Hs. unfold abs_path.
  destruct (rel_path_snoc_cases l b) as [[E ->]|[E Hne]]; unfold rel_path in E; rewrite E.
  - exists false. by rewrite parse_root_base.
  - exists true. rewrite <-str_app_assoc. by rewrite parse_dir_base.
Qed.

(** [basename] of a relative path whose last segment ends with the
    suffix. *)
Lemma basename_rel_path ds stem suf :
  stem ≠ "" → suf ≠ "" → has_char slash stem = false → has_char slash suf = false →
  basename (rel_path (ds ++ [stem +:+ suf])) suf = stem.
Proof.
  intros Hstem Hsuf Hs1 Hs2.
  assert (Hb : has_char slash (stem +:+ suf) = false) by (by rewrite has_char_app, Hs1, Hs2).
  assert (Hbne : stem +:+ suf ≠ "") by (intros [? _]%str_app_eq_nil; done).
  assert (Hlen : String.length suf < String.length (rel_path (ds ++ [stem +:+ suf]))).
  { destruct (rel_path_snoc_cases ds (stem +:+ suf)) as [[-> _]|[-> _]];
      rewrite !str_length_app; destruct stem; simpl; [done|lia|done|lia]. }
  unfold basename.
  rewrite bool_decide_eq_true_2 by done.
  rewrite bool_decide_eq_true_2 by lia. simpl andb. cbv iota.
  rewrite decide_False by (intros E; rewrite <-E in Hlen; lia).
  assert (Htrim : rstrip slash (rel_path (ds ++ [stem +:+ suf]))
                  = rel_path (ds ++ [stem +:+ suf])).
  { destruct (rel_path_snoc_cases ds (stem +:+ suf)) as [[-> _]|[-> _]].
    - by apply rstrip_nochar.
    - rewrite <-str_app_assoc. by apply rstrip_nonempty_tail. }
  rewrite Htrim.
  rewrite decide_False by (intros E; rewrite E in Hlen; simpl in Hlen; lia).
  assert (Hlast : match rsplit slash (rel_path (ds ++ [stem +:+ suf])) with
                  | Some (_, b) => b
                  | None => rel_path (ds ++ [stem +:+ suf])
                  end = stem +:+ suf).
  { destruct (rel_path_snoc_cases ds (stem +:+ suf)) as [[-> _]|[-> _]].
    - by rewrite rsplit_none.
    - by rewrite slash_app, rsplit_app. }
  rewrite Hlast, strip_suffix_app. by destruct stem.
Qed.

(** ** Facts on assignment to a plain object *)

Lemma lookup_assign_eq {V} k (v : V) o : k ≠ "__proto__" → assign k v o !! k = Some v.
Proof. intros Hk. unfold assign. rewrite decide_False by done. apply lookup_insert_eq. Qed.

Lemma lookup_assign_ne {V} k k' (v : V) o : k ≠ k' → assign k v o !! k' = o !! k'.
Proof. intros Hk. unfold assign. case_decide; [done|]. by apply lookup_insert_ne. Qed.

Lemma lookup_assign_proto {V} k (v : V) o : assign k v o !! "__proto__" = o !! "__proto__".
Proof. unfold assign. case_decide as E; [done|]. by apply lookup_insert_ne. Qed.

Lemma lookup_assign_Some {V} k (v : V) o k' w :
  assign k v o !! k' = Some w →
  (k' = k ∧ k ≠ "__proto__" ∧ w = v) ∨ o !! k' = Some w.
Proof.
  unfold assign. case_decide as E; [by right|].
  rewrite lookup_insert. case_decide as E'; [|by right].
  intros [= <-]. by left.
Qed.

Lemma lookup_assign_is_Some {V} k (v : V) o k' :
  is_Some (assign k v o !! k') ↔ (k' = k ∧ k ≠ "__proto__") ∨ is_Some (o !! k').
Proof.
  unfold assign. case_decide as E.
  - split; [by right|]. intros [[-> ?]|?]; done.
  - rewrite lookup_insert. case_decide as E'.
    + split; [by left|by eauto].
    + split; [by right|]. intros [[-> ?]|?]; done.
Qed.

(** ** Facts on the builder's monad *)

Lemma bind_Ok {A B} (m : M A) (f : A → M B) st a st' :
  m st = (Ok a, st') → (m ≫= f) st = f a st'.
Proof. unfold mbind, M_bind. by intros ->. Qed.

Lemma bind_Throw {A B} (m : M A) (f : A → M B) st e st' :
  m st = (Throw e, st') → (m ≫= f) st = (Throw e, st').
Proof. unfold mbind, M_bind. by intros ->. Qed.

Lemma bind_inv_Ok {A B} (m : M A) (f : A → M B) st b st' :
  (m ≫= f) st = (Ok b, st') →
  ∃ a st1, m st = (Ok a, st1) ∧ f a st1 = (Ok b, st').
Proof.
  unfold mbind, M_bind. destruct (m st) as [[a|e] st1]; [eauto|done].
Qed.

Lemma foldM_app {A B} (f : B → A → M B) acc l1 l2 st :
  foldM f acc (l1 ++ l2) st =
    match foldM f acc l1 st with
    | (Ok acc', st') => foldM f acc' l2 st'
    | (Throw e, st') => (Throw e, st')
    end.
Proof.
  revert acc st. induction l1 as [|x l1 IH]; intros acc st; [done|].
  simpl. unfold mbind, M_bind. destruct (f acc x st) as [[acc'|e] st1]; [|done].
  apply IH.
Qed.

(** The loop stops at the first iteration that throws. *)
Lemma foldM_throw {A B} (f : B → A → M B) acc pre x post st0 acc' st e st' :
  foldM f acc pre st0 = (Ok acc', st) →
  f acc' x st = (Throw e, st') →
  foldM f acc (pre ++ x :: post) st0 = (Throw e, st').
Proof.
  intros Hpre Hx. rewrite foldM_app, Hpre. simpl. by rewrite (bind_Throw _ _ _ _ _ Hx).
Qed.

Lemma foldM_throw_inv {A B} (f : B → A → M B) acc l st e st' :
  foldM f acc l st = (Throw e, st') →
  ∃ pre x post acc' s,
    l = pre ++ x :: post ∧ foldM f acc pre st = (Ok acc', s) ∧ f acc' x s = (Throw e, st').
Proof.
  revert acc st. induction l as [|x l IH]; intros acc st; [done|]. simpl.
  unfold mbind, M_bind. destruct (f acc x st) as [[acc1|e1] s1] eqn:E.
  - intros (pre & y & post & acc' & s & -> & Hpre & Hy)%IH.
    exists (x :: pre), y, post, acc', s. split; [done|]. split; [|done].
    simpl. by rewrite (bind_Ok _ _ _ _ _ E).
  - intros [= <- <-]. by exists [], x, l, acc, st.
Qed.

Section MonadFacts.
Context {Route : Type}.
Variable host : Host Route.

(** *** [readFile], case by case *)

Lemma readFile_cached W p st v :
  sourceCache st !! relative (cwd host) W p = Some v →
  readFile host W p st = (Ok (toString host <$> v), st).
Proof.
  intros Hc. unfold readFile, mbind, M_bind, gets. rewrite Hc. by destruct v.
Qed.

Lemma readFile_uncached W p st :
  sourceCache st !! relative (cwd host) W p = None →
  readFile host W p st = firstRead host W p st.
Proof.
  intros Hc. unfold readFile, firstRead, mbind, M_bind, gets. rewrite Hc.
  unfold try_catch, readFileSync, lstatSync, of_sum, modify, throw, new_id, mret, M_ret.
  destruct (fs_readFile (fs_now host st) p) as [source|e]; [|by destruct (isMissing e)].
  destruct (fs_lstat (fs_now host (log_fs (ReadFileSync p) st)) p) as [mode|e];
    [|by destruct (isMissing e)].
  by destruct (isSymbolicLink mode).
Qed.


(** *** [sourceCache] only grows *)

Global Instance grows_preorder : PreOrder grows.
Proof.
  split; [intros st; split; [by intros k v|done]|].
  intros s1 s2 s3 [H1 L1] [H2 L2]. split; [|lia].
  intros k v Hk. eauto.
Qed.

Lemma grows_same st st' :
  sourceCache st' = sourceCache st → nextId st ≤ nextId st' → grows st st'.
Proof. intros E ?. split; [|done]. intros k v. by rewrite E. Qed.

Lemma grows_insert st st' key v :
  sourceCache st !! key = None →
  sourceCache st' = <[key := v]> (sourceCache st) → nextId st ≤ nextId st' →
  grows st st'.
Proof.
  intros Hc E ?. split; [|done].
  intros k w Hk. rewrite E, lookup_insert_ne; [done|]. intros ->. congruence.
Qed.

Lemma mono_ret {A} (a : A) : mono (mret a).
Proof. intros st r st' [= _ <-]. done. Qed.

Lemma mono_throw {A} e : mono (@throw A e).
Proof. intros st r st' [= _ <-]. done. Qed.

Lemma mono_liftResult {A} (x : Result A) : mono (liftResult x).
Proof. intros st r st' [= _ <-]. done. Qed.

Lemma mono_bind {A B} (m : M A) (f : A → M B) :
  mono m → (∀ a, mono (f a)) → mono (m ≫= f).
Proof.
  intros Hm Hf st r st'. unfold mbind, M_bind.
  destruct (m st) as [[a|e] st1] eqn:E.
  - intros H. etrans; [by eapply Hm|by eapply Hf].
  - intros [= _ <-]. by eapply Hm.
Qed.

Lemma mono_attempt {A} (m : M A) : mono m → mono (attempt m).
Proof.
  intros Hm st r st'. unfold attempt. destruct (m st) as [r0 s0] eqn:E.
  intros [= _ <-]. by eapply Hm.
Qed.

Lemma mono_foldM {A B} (f : B → A → M B) acc l :
  (∀ b a, mono (f b a)) → mono (foldM f acc l).
Proof.
  intros Hf. revert acc. induction l as [|x l IH]; intros acc; simpl.
  - apply mono_ret.
  - apply mono_bind; [apply Hf|]. intros a. apply IH.
Qed.

Lemma mono_readFile W p : mono (readFile host W p).
Proof.
  intros st r st'.
  destruct (sourceCache st !! relative (cwd host) W p) as [v|] eqn:Hc.
  - rewrite (readFile_cached _ _ _ _ Hc). by intros [= _ <-].
  - rewrite (readFile_uncached _ _ _ Hc). unfold firstRead.
    destruct (fs_readFile _ p) as [source|e].
    + destruct (fs_lstat _ p) as [mode|e].
      * intros [= _ <-]. eapply grows_insert; [done..|simpl; lia].
      * destruct (isMissing e); intros [= _ <-];
          [by eapply grows_insert | by apply grows_same].
    + destruct (isMissing e); intros [= _ <-];
        [by eapply grows_insert | by apply grows_same].
Qed.

Lemma mono_runTrace W t : mono (runTrace host W t).
Proof.
  induction t as [r|e|p k IH]; simpl.
  - apply mono_ret.
  - apply mono_throw.
  - apply mono_bind; [apply mono_attempt, mono_readFile|done].
Qed.

Lemma mono_fromFsPath p : mono (fromFsPath host p).
Proof.
  intros st r st'. unfold fromFsPath, mbind, M_bind, lstat, new_id, mret, M_ret.
  destruct (of_sum _); intros [= _ <-]; apply grows_same; simpl; (done || lia).
Qed.

Lemma mono_surfaceWarning w : mono (surfaceWarning w).
Proof.
  intros st r st'. unfold surfaceWarning, debug, modify, mret, M_ret.
  destruct (stack w) as [s|]; [case_decide|]; intros [= _ <-]; by apply grows_same.
Qed.

Lemma mono_makeLambda W entry : mono (makeLambda host W entry).
Proof.
  unfold makeLambda.
  apply mono_bind; [apply mono_runTrace|]. intros tr.
  apply mono_bind; [apply mono_foldM; intros; apply mono_surfaceWarning|]. intros _.
  apply mono_bind.
  { apply mono_foldM. intros b a. unfold addLambdaFile.
    apply mono_bind; [apply mono_fromFsPath|]. intros. apply mono_ret. }
  intros lf. apply mono_bind; [apply mono_liftResult|]. intros. apply mono_ret.
Qed.

Lemma mono_packageFunction W api outs entry :
  mono (packageFunction host W api outs entry).
Proof.
  unfold packageFunction. apply mono_bind; [apply mono_makeLambda|].
  intros. apply mono_ret.
Qed.

Lemma run_step_grows W st st' : run_step host W st st' → grows st st'.
Proof.
  intros [q r s s' H|t r s s' H|api outs entry r s s' H].
  - by eapply mono_readFile.
  - by eapply mono_runTrace.
  - by eapply mono_packageFunction.
Qed.

Lemma later_grows W st st' : later host W st st' → grows st st'.
Proof.
  induction 1 as [|s1 s2 s3 H _ IH]; [done|].
  etrans; [by eapply run_step_grows|done].
Qed.



End MonadFacts.

(** ** Facts on the packaging loop and on [build] *)

Section BuildFacts.
Context {Route : Type}.
Variable host : Host Route.






Lemma packageFunction_throw W api outs entry st e st' :
  makeLambda host W entry st = (Throw e, st') →
  packageFunction host W api outs entry st = (Throw e, st').
Proof. intros H. unfold packageFunction. by rewrite (bind_Throw _ _ _ _ _ H). Qed.

Lemma packageFunction_throw_inv W api outs entry st e st' :
  packageFunction host W api outs entry st = (Throw e, st') →
  makeLambda host W entry st = (Throw e, st').
Proof.
  unfold packageFunction, mbind, M_bind.
  by destruct (makeLambda host W entry st) as [[lam|e'] st1]; intros [= <- <-].
Qed.

Lemma packageFunction_Ok W api outs entry st lam st' :
  makeLambda host W entry st = (Ok lam, st') →
  packageFunction host W api outs entry st
  = (Ok (assign (outputName api entry.1) lam outs), st').
Proof. intros H. unfold packageFunction. by rewrite (bind_Ok _ _ _ _ _ H). Qed.

Lemma packageFunction_Ok_inv W api outs entry st outs' st' :
  packageFunction host W api outs entry st = (Ok outs', st') →
  ∃ lam, makeLambda host W entry st = (Ok lam, st')
         ∧ outs' = assign (outputName api entry.1) lam outs.
Proof.
  intros (lam & st1 & Hl & [= <- <-])%bind_inv_Ok. eauto.
Qed.

(** The fields of a [lambda] that do not depend on the resolver. *)
Lemma makeLambda_fields W entry st lam st' :
  makeLambda host W entry st = (Ok lam, st') →
  handler lam = relative (cwd host) W (fsPath entry.2)
  ∧ awsLambdaHandler lam
    = getAWSLambdaHandler (relative (cwd host) W (fsPath entry.2)) "handler"
  ∧ (relative (cwd host) W (fsPath entry.2) ≠ "__proto__" →
     files lam !! relative (cwd host) W (fsPath entry.2) = Some (IsFsRef entry.2))
  ∧ runtime lam = nodeRuntime host
  ∧ shouldAddHelpers lam = false ∧ shouldAddSourcemapSupport lam = false.
Proof.
  unfold makeLambda.
  intros (tr & s1 & _ & (u & s2 & _ & (lf & s3 & _ & (opts & s4 & _ & H)%bind_inv_Ok
    )%bind_inv_Ok)%bind_inv_Ok)%bind_inv_Ok.
  injection H as <- _. simpl. repeat split; try done.
  intros Hk. by apply lookup_assign_eq.
Qed.

(** *** The objects of a file set *)

Lemma fromFsPath_Ok_inv p st r s1 :
  fromFsPath host p st = (Ok r, s1) →
  ref_id r = NewObj (nextId st) ∧ nextId s1 = S (nextId st).
Proof.
  unfold fromFsPath, mbind, M_bind, lstat, new_id, mret, M_ret.
  destruct (of_sum _); [|done]. by intros [= <- <-].
Qed.

Lemma made_between_weaken s1 s2 s3 s4 i :
  nextId s1 ≤ nextId s2 → nextId s3 ≤ nextId s4 →
  made_between s2 s3 i → made_between s1 s4 i.
Proof. intros ?? (n & -> & ?). exists n. split; [done|lia]. Qed.

(** Every entry the loop of lines 268-272 adds is a reference made in that
    loop. *)
Lemma addLambdaFiles_made W l acc st lf st' :
  foldM (addLambdaFile host W) acc l st = (Ok lf, st') →
  ∀ k f, lf !! k = Some f →
         acc !! k = Some f ∨ ∃ r, f = IsFsRef r ∧ made_between st st' (ref_id r).
Proof.
  revert acc st. induction l as [|x l IH]; intros acc st; simpl.
  - intros [= <- _] k f Hk. by left.
  - intros (acc1 & s1 & Hx & Hl)%bind_inv_Ok k f Hk.
    unfold addLambdaFile in Hx.
    apply bind_inv_Ok in Hx as (r & s1' & Hr & [= <- <-]).
    destruct (fromFsPath_Ok_inv _ _ _ _ Hr) as [Hid Hnext].
    assert (Hmono : nextId s1' ≤ nextId st').
    { eapply (mono_foldM (addLambdaFile host W)); [|exact Hl].
      intros b a. unfold addLambdaFile.
      apply mono_bind; [apply mono_fromFsPath|intros; apply mono_ret]. }
    destruct (IH _ _ Hl k f Hk) as [Hacc|(r' & -> & Hmade)].
    + apply lookup_assign_Some in Hacc as [(_ & _ & ->)|Hacc]; [|by left].
      right. exists r. split; [done|].
      exists (nextId st). split; [done|lia].
    + right. exists r'. split; [done|].
      eapply made_between_weaken; [| |exact Hmade]; lia.
Qed.

(** The file set of a function: the reference [glob] made for its
    entrypoint, and references made while the function was packaged. *)
Lemma makeLambda_files_made W entry st lam st' :
  makeLambda host W entry st = (Ok lam, st') →
  ∀ k f, files lam !! k = Some f →
         (k = relative (cwd host) W (fsPath entry.2) ∧ f = IsFsRef entry.2)
         ∨ ∃ r, f = IsFsRef r ∧ made_between st st' (ref_id r).
Proof.
  unfold makeLambda.
  intros (tr & s1 & Ht & (u & s2 & Hw & (lf & s3 & Hf & (opts & s4 & Ho & H)%bind_inv_Ok
    )%bind_inv_Ok)%bind_inv_Ok)%bind_inv_Ok k f.
  injection H as <- <-. injection Ho as _ <-. simpl.
  intros [(-> & _ & ->)|Hk]%lookup_assign_Some; [by left|]. right.
  destruct (addLambdaFiles_made _ _ _ _ _ _ Hf k f Hk) as [Hemp|(r & -> & Hmade)];
    [by rewrite lookup_empty in Hemp|].
  exists r. split; [done|].
  apply (mono_runTrace host) in Ht as [_ L1].
  apply (mono_foldM (λ _ w, surfaceWarning w)) in Hw as [_ L2];
    [|intros; apply mono_surfaceWarning].
  eapply made_between_weaken; [| |exact Hmade]; lia.
Qed.

(** What two functions of one run share in their file sets, their own
    entrypoints apart, they hold as two objects. *)
Lemma shared_entries_distinct W e1 e2 st1 st1' st2 st2' lam1 lam2 k f1 f2 :
  makeLambda host W e1 st1 = (Ok lam1, st1') →
  later host W st1' st2 →
  makeLambda host W e2 st2 = (Ok lam2, st2') →
  k ≠ relative (cwd host) W (fsPath e1.2) →
  k ≠ relative (cwd host) W (fsPath e2.2) →
  files lam1 !! k = Some f1 → files lam2 !! k = Some f2 →
  file_id f1 ≠ file_id f2.
Proof.
  intros H1 Hl H2 Hk1 Hk2 Hf1 Hf2.
  destruct (makeLambda_files_made _ _ _ _ _ H1 k f1 Hf1) as [[? _]|(r1 & -> & n1 & E1 & ?)];
    [done|].
  destruct (makeLambda_files_made _ _ _ _ _ H2 k f2 Hf2) as [[? _]|(r2 & -> & n2 & E2 & ?)];
    [done|].
  apply later_grows in Hl as [_ Hl]. simpl. rewrite E1, E2. intros [= ->]. lia.
Qed.

(** The outputs of the loop, name by name: the last entry of a name
    decides, names no entry has are left alone. *)
Lemma lambdaOutputs_other W api l acc st outs st' k :
  foldM (packageFunction host W api) acc l st = (Ok outs, st') →
  Forall (λ e, outputName api e.1 ≠ k) l →
  outs !! k = acc !! k.
Proof.
  revert acc st. induction l as [|x l IH]; intros acc st; simpl.
  - by intros [= <- _] _.
  - intros (acc' & s1 & Hx & Hl)%bind_inv_Ok [Hk Hall]%Forall_cons.
    rewrite (IH _ _ Hl Hall).
    apply packageFunction_Ok_inv in Hx as (lam & _ & ->).
    by rewrite lookup_assign_ne.
Qed.

Lemma lambdaOutputs_last W api pre entry post acc st outs st' :
  foldM (packageFunction host W api) acc (pre ++ entry :: post) st = (Ok outs, st') →
  Forall (λ e, outputName api e.1 ≠ outputName api entry.1) post →
  outputName api entry.1 ≠ "__proto__" →
  ∃ lam sa sb, makeLambda host W entry sa = (Ok lam, sb)
               ∧ outs !! outputName api entry.1 = Some lam.
Proof.
  rewrite foldM_app.
  destruct (foldM _ acc pre st) as [[acc1|e] s1]; [|done]. simpl.
  intros (acc2 & s2 & Hx & Hl)%bind_inv_Ok Hall Hname.
  apply packageFunction_Ok_inv in Hx as (lam & Hlam & ->).
  exists lam, s1, s2. split; [done|].
  rewrite (lambdaOutputs_other _ _ _ _ _ _ _ _ Hl Hall).
  by rewrite lookup_assign_eq.
Qed.

Lemma lambdaOutputs_dom W api l acc st outs st' :
  foldM (packageFunction host W api) acc l st = (Ok outs, st') →
  (∀ k, is_Some (acc !! k) → is_Some (outs !! k))
  ∧ Forall (λ e, outputName api e.1 ≠ "__proto__" → is_Some (outs !! outputName api e.1)) l.
Proof.
  revert acc st. induction l as [|x l IH]; intros acc st; simpl.
  - intros [= <- _]. by split.
  - intros (acc' & s1 & Hx & Hl)%bind_inv_Ok.
    destruct (IH _ _ Hl) as [Hkeep Hall].
    apply packageFunction_Ok_inv in Hx as (lam & _ & ->).
    split.
    + intros k Hk. apply Hkeep. apply lookup_assign_is_Some. by right.
    + constructor; [|done]. intros Hname. apply Hkeep.
      apply lookup_assign_is_Some. by left.
Qed.

(** No output of the loop is an own property named [__proto__]. *)
Lemma lambdaOutputs_proto W api l acc st outs st' :
  foldM (packageFunction host W api) acc l st = (Ok outs, st') →
  outs !! "__proto__" = acc !! "__proto__".
Proof.
  revert acc st. induction l as [|x l IH]; intros acc st; simpl.
  - by intros [= <- _].
  - intros (acc' & s1 & Hx & Hl)%bind_inv_Ok. rewrite (IH _ _ Hl).
    apply packageFunction_Ok_inv in Hx as (lam & _ & ->).
    apply lookup_assign_proto.
Qed.

Lemma build_of_loop_Ok inp outs st1 :
  lambdaOutputsOf host inp init_state = (Ok outs, st1) →
  build host inp = finish host inp outs st1.
Proof.
  intros H. unfold build, buildM, finish. rewrite (bind_Ok _ _ _ _ _ H).
  unfold mbind, M_bind, existsSync. by destruct (error _).
Qed.

Lemma build_of_loop_Throw inp e st' :
  lambdaOutputsOf host inp init_state = (Throw e, st') →
  build host inp = (Throw e, st').
Proof. intros H. unfold build, buildM. by rewrite (bind_Throw _ _ _ _ _ H). Qed.

Lemma build_Ok_inv inp out st' :
  build host inp = (Ok out, st') →
  ∃ outs st1, lambdaOutputsOf host inp init_state = (Ok outs, st1)
              ∧ finish host inp outs st1 = (Ok out, st').
Proof.
  destruct (lambdaOutputsOf host inp init_state) as [[outs|e] st1] eqn:E.
  - rewrite (build_of_loop_Ok _ _ _ E). eauto.
  - by rewrite (build_of_loop_Throw _ _ _ E).
Qed.

(** The static outputs, key by key: the last file of a key decides. *)
Lemma staticOutputs_last webDist pre f post :
  Forall (λ g, staticKey host webDist g.1 g.2 ≠ staticKey host webDist f.1 f.2) post →
  staticKey host webDist f.1 f.2 ≠ "__proto__" →
  staticOutputs host webDist (pre ++ f :: post) !! staticKey host webDist f.1 f.2
  = Some (staticValue f.2).
Proof.
  intros Hall Hkey. unfold staticOutputs. rewrite foldl_app. simpl.
  generalize (foldl (staticStep host webDist) ∅ pre). intros acc.
  assert (∀ m, foldl (staticStep host webDist) m post !! staticKey host webDist f.1 f.2
               = m !! staticKey host webDist f.1 f.2) as ->.
  { induction Hall as [|g post Hg _ IH]; intros m; [done|].
    simpl. rewrite IH. unfold staticStep. by rewrite lookup_assign_ne. }
  unfold staticStep. by rewrite lookup_assign_eq.
Qed.

Lemma staticOutputs_proto webDist files :
  staticOutputs host webDist files !! "__proto__" = None.
Proof.
  unfold staticOutputs.
  assert (∀ m, foldl (staticStep host webDist) m files !! "__proto__" = m !! "__proto__")
    as ->; [|done].
  induction files as [|f files IH]; intros m; [done|].
  simpl. rewrite IH. apply lookup_assign_proto.
Qed.

(** The states of a run follow each other in the sense of [later]:
    between two iterations of the loop, and between two reads of one
    resolver run. *)
Lemma loop_later W api acc l st r st' :
  foldM (packageFunction host W api) acc l st = (r, st') → later host W st st'.
Proof.
  revert acc st. induction l as [|x l IH]; intros acc st; simpl.
  - intros [= _ <-]. apply rtc_refl.
  - unfold mbind, M_bind.
    destruct (packageFunction host W api acc x st) as [[acc'|e] s1] eqn:E.
    + intros H. eapply rtc_l; [by eapply step_package|by eapply IH].
    + intros [= _ <-]. eapply rtc_once. by eapply step_package.
Qed.

Lemma trace_at_later W t st t' st' :
  trace_at host W t st t' st' → later host W st st'.
Proof.
  induction 1 as [|p k r st st1 t' st' Hread _ IH]; [apply rtc_refl|].
  eapply rtc_l; [by eapply step_readFile|done].
Qed.

(** A function whose packaging throws ends the run. *)
Lemma build_throw_at inp pre entry post outs st e st' :
  functionFiles inp = pre ++ entry :: post →
  foldM (packageFunction host (workPath inp) (apiDir (apiProxyPath inp))) ∅ pre init_state
  = (Ok outs, st) →
  makeLambda host (workPath inp) entry st = (Throw e, st') →
  build host inp = (Throw e, st').
Proof.
  intros Hl Hpre Hx. apply build_of_loop_Throw. unfold lambdaOutputsOf.
  rewrite Hl. eapply foldM_throw; [done|]. by apply packageFunction_throw.
Qed.

End BuildFacts.

(** ** What the builder never reads

    [fsCache] and [debugLog] are written and never read: no step of the
    packaging depends on them. *)

Section WriteOnly.
Context {Route : Type}.
Variable host : Host Route.

Global Instance obs_eq_equiv : Equivalence obs_eq.
Proof.
  split.
  - by intros st.
  - intros s1 s2 (? & ? & ?). by repeat split.
  - intros s1 s2 s3 (? & ? & ?) (? & ? & ?). repeat split; congruence.
Qed.

Lemma obs_eq_add_debug lines st : obs_eq (add_debug lines st) st.
Proof. by repeat split. Qed.

Lemma respects_ret {A} (a : A) : respects (mret a).
Proof. by intros st st' H. Qed.

Lemma respects_throw {A} e : respects (@throw A e).
Proof. by intros st st' H. Qed.

Lemma respects_liftResult {A} (x : Result A) : respects (liftResult x).
Proof. by intros st st' H. Qed.

Lemma respects_bind {A B} (m : M A) (f : A → M B) :
  respects m → (∀ a, respects (f a)) → respects (m ≫= f).
Proof.
  intros Hm Hf st st' H. destruct (Hm st st' H) as [Hr Hs].
  unfold mbind, M_bind.
  destruct (m st) as [[a|e] s1], (m st') as [[a'|e'] s1']; simpl in *; simplify_eq.
  - by apply Hf.
  - done.
Qed.

Lemma respects_attempt {A} (m : M A) : respects m → respects (attempt m).
Proof.
  intros Hm st st' H. destruct (Hm st st' H) as [Hr Hs]. unfold attempt.
  destruct (m st) as [r s1], (m st') as [r' s1']; simpl in *. by subst.
Qed.

Lemma respects_foldM {A B} (f : B → A → M B) acc l :
  (∀ b a, respects (f b a)) → respects (foldM f acc l).
Proof.
  intros Hf. revert acc. induction l as [|x l IH]; intros acc; simpl.
  - apply respects_ret.
  - apply respects_bind; [apply Hf|]. intros a. apply IH.
Qed.

Lemma respects_readFile W p : respects (readFile host W p).
Proof.
  intros st st' (Hc & Hl & Hn).
  destruct (sourceCache st !! relative (cwd host) W p) as [v|] eqn:E.
  - rewrite (readFile_cached _ _ _ _ _ E).
    rewrite Hc in E. rewrite (readFile_cached _ _ _ _ _ E). by repeat split.
  - rewrite (readFile_uncached _ _ _ _ E).
    rewrite Hc in E. rewrite (readFile_uncached _ _ _ _ E).
    unfold firstRead, fs_now, log_fs. simpl. rewrite Hl, Hn, Hc.
    destruct (fs_readFile _ p) as [source|e].
    + destruct (fs_lstat _ p) as [mode|e]; [by repeat split|].
      destruct (isMissing e); by repeat split.
    + destruct (isMissing e); by repeat split.
Qed.

Lemma respects_runTrace W t : respects (runTrace host W t).
Proof.
  induction t as [r|e|p k IH]; simpl.
  - apply respects_ret.
  - apply respects_throw.
  - apply respects_bind; [apply respects_attempt, respects_readFile|done].
Qed.

Lemma respects_fromFsPath p : respects (fromFsPath host p).
Proof.
  intros st st' (Hc & Hl & Hn).
  unfold fromFsPath, mbind, M_bind, lstat, new_id, mret, M_ret, fs_now, log_fs.
  simpl. rewrite Hl, Hn.
  destruct (of_sum _); by repeat split.
Qed.

Lemma respects_surfaceWarning w : respects (surfaceWarning w).
Proof.
  intros st st' H. unfold surfaceWarning, debug, modify, mret, M_ret.
  destruct (stack w) as [s|]; [case_decide|]; done.
Qed.

Lemma respects_addLambdaFiles W acc l :
  respects (foldM (addLambdaFile host W) acc l).
Proof.
  apply respects_foldM. intros b a. unfold addLambdaFile.
  apply respects_bind; [apply respects_fromFsPath|]. intros. apply respects_ret.
Qed.

Lemma respects_makeLambda W entry : respects (makeLambda host W entry).
Proof.
  unfold makeLambda.
  apply respects_bind; [apply respects_runTrace|]. intros tr.
  apply respects_bind; [apply respects_foldM; intros; apply respects_surfaceWarning|].
  intros _. apply respects_bind; [apply respects_addLambdaFiles|].
  intros lf. apply respects_bind; [apply respects_liftResult|]. intros. apply respects_ret.
Qed.

(** The [lambda] of a function is the same whatever [fsCache] and
    [debugLog] hold when its packaging starts. *)
Lemma fsCache_never_read W entry st st' :
  obs_eq st st' → (makeLambda host W entry st).1 = (makeLambda host W entry st').1.
Proof. intros H. by apply respects_makeLambda. Qed.

(** The resolver run of the muted host. *)
Lemma runTrace_mute W t st :
  runTrace (muted host) W (mute t) st
  = match runTrace host W t st with
    | (Ok r, s) => (Ok (muteResult r), s)
    | (Throw e, s) => (Throw e, s)
    end.
Proof.
  revert st. induction t as [r|e|p k IH]; intros st; [done..|].
  simpl. unfold mbind, M_bind, attempt.
  change (readFile (muted host) W p st) with (readFile host W p st).
  destruct (readFile host W p st) as [r s]. apply IH.
Qed.

(** Each step of the warnings loop leaves the state as it is, the debug
    log set aside. *)
Lemma surfaceWarnings_debug_only ws st :
  foldM (λ _ w, surfaceWarning w) tt ws st = (Ok tt, add_debug (omap forwardedLine ws) st).
Proof.
  revert st. induction ws as [|w ws IH]; intros st.
  - simpl. unfold mret, M_ret, add_debug. destruct st. simpl.
    by rewrite (right_id_L [] (++)).
  - simpl. unfold mbind, M_bind, surfaceWarning, forwardedLine.
    destruct (stack w) as [s|]; [case_decide|]; simpl; rewrite IH;
      unfold add_debug; simpl; by rewrite <-?(assoc_L (++)).
Qed.

(** Packaging returns the same with and without the resolver's warnings. *)
Lemma makeLambda_muted W entry st :
  (makeLambda host W entry st).1 = (makeLambda (muted host) W entry st).1.
Proof.
  unfold makeLambda. unfold mbind at 1 5. unfold M_bind.
  change (nodeFileTrace (muted host) (fsPath entry.2))
    with (mute (nodeFileTrace host (fsPath entry.2))).
  rewrite runTrace_mute.
  destruct (runTrace host W _ st) as [[tr|e] s]; [|done].
  unfold mbind at 1 4. unfold M_bind. rewrite !surfaceWarnings_debug_only.
  change (warnings (muteResult tr)) with (@nil Warning). simpl omap.
  set (rest := (_ ≫= _)).
  assert (Hrest : respects rest).
  { unfold rest. apply respects_bind; [apply respects_addLambdaFiles|].
    intros lf. apply respects_bind; [apply respects_liftResult|]. intros.
    apply respects_ret. }
  destruct (Hrest (add_debug (omap forwardedLine (warnings tr)) s) (add_debug [] s))
    as [E _].
  { etrans; [apply obs_eq_add_debug|]. symmetry. apply obs_eq_add_debug. }
  rewrite E. done.
Qed.

End WriteOnly.

(** ** Invariants of the state *)

Lemma preserves_ret {A} I (a : A) : preserves I (mret a).
Proof. by intros st r st' H [= _ <-]. Qed.

Lemma preserves_throw {A} I e : preserves I (@throw A e).
Proof. by intros st r st' H [= _ <-]. Qed.

Lemma preserves_liftResult {A} I (x : Result A) : preserves I (liftResult x).
Proof. by intros st r st' H [= _ <-]. Qed.

Lemma preserves_bind {A B} I (m : M A) (f : A → M B) :
  preserves I m → (∀ a, preserves I (f a)) → preserves I (m ≫= f).
Proof.
  intros Hm Hf st r st' HI. unfold mbind, M_bind.
  destruct (m st) as [[a|e] s1] eqn:E.
  - apply Hf. by eapply Hm.
  - intros [= _ <-]. by eapply Hm.
Qed.

Lemma preserves_attempt {A} I (m : M A) : preserves I m → preserves I (attempt m).
Proof.
  intros Hm st r st' HI. unfold attempt. destruct (m st) as [r0 s0] eqn:E.
  intros [= _ <-]. by eapply Hm.
Qed.

Lemma preserves_foldM {A B} I (f : B → A → M B) acc l :
  (∀ b a, preserves I (f b a)) → preserves I (foldM f acc l).
Proof.
  intros Hf. revert acc. induction l as [|x l IH]; intros acc; simpl.
  - apply preserves_ret.
  - apply preserves_bind; [apply Hf|]. intros a. apply IH.
Qed.

(** ** The debug log

    Only the warnings loop writes to it. *)

Section DebugLog.
Context {Route : Type}.
Variable host : Host Route.

Lemma debug_same_readFile W p L :
  preserves (λ st, debugLog st = L) (readFile host W p).
Proof.
  intros st r st' HL.
  destruct (sourceCache st !! relative (cwd host) W p) as [v|] eqn:Hc.
  - rewrite (readFile_cached _ _ _ _ _ Hc). by intros [= _ <-].
  - rewrite (readFile_uncached _ _ _ _ Hc). unfold firstRead.
    destruct (fs_readFile _ p) as [source|e].
    + destruct (fs_lstat _ p) as [mode|e]; [by intros [= _ <-]|].
      by destruct (isMissing e); intros [= _ <-].
    + by destruct (isMissing e); intros [= _ <-].
Qed.

Lemma debug_same_runTrace W t L :
  preserves (λ st, debugLog st = L) (runTrace host W t).
Proof.
  induction t as [r|e|p k IH]; simpl.
  - apply preserves_ret.
  - apply preserves_throw.
  - apply preserves_bind; [apply preserves_attempt, debug_same_readFile|done].
Qed.

Lemma debug_same_fromFsPath p L :
  preserves (λ st, debugLog st = L) (fromFsPath host p).
Proof.
  intros st r st' HL. unfold fromFsPath, mbind, M_bind, lstat, new_id, mret, M_ret.
  by destruct (of_sum _); intros [= _ <-].
Qed.

(** Lines 265-290 leave the debug log alone. *)
Lemma debug_same_files_and_options W l (f : gmap string File → M Lambda) L :
  (∀ lf, preserves (λ st, debugLog st = L) (f lf)) →
  preserves (λ st, debugLog st = L) (foldM (addLambdaFile host W) ∅ l ≫= f).
Proof.
  intros Hf. apply preserves_bind; [|done].
  apply preserves_foldM. intros b a. unfold addLambdaFile.
  apply preserves_bind; [apply debug_same_fromFsPath|]. intros. apply preserves_ret.
Qed.

(** The debug log after the packaging of a function whose resolver run
    returned, whether or not the packaging then fails: one line more for
    each warning that has a stack. *)
Lemma makeLambda_debug W entry st tr s1 :
  runTrace host W (nodeFileTrace host (fsPath entry.2)) st = (Ok tr, s1) →
  debugLog (makeLambda host W entry st).2 = debugLog st ++ omap forwardedLine (warnings tr).
Proof.
  intros Ht.
  pose proof (debug_same_runTrace _ _ (debugLog st) st _ _ eq_refl Ht) as H1.
  simpl in H1. unfold makeLambda. rewrite (bind_Ok _ _ _ _ _ Ht).
  rewrite (bind_Ok _ _ _ _ _ (surfaceWarnings_debug_only _ _)).
  set (L := debugLog st ++ omap forwardedLine (warnings tr)).
  set (s2 := add_debug (omap forwardedLine (warnings tr)) s1).
  assert (H2 : debugLog s2 = L) by (unfold s2, L; simpl; by rewrite H1).
  match goal with |- debugLog (?m s2).2 = L =>
    assert (Hm : preserves (λ st, debugLog st = L) m) end.
  { apply debug_same_files_and_options. intros lf.
    apply preserves_bind; [apply preserves_liftResult|]. intros. apply preserves_ret. }
  match goal with |- debugLog (?m s2).2 = L =>
    destruct (m s2) as [r s3] eqn:E end.
  by apply (Hm s2 r s3).
Qed.

Lemma debug_prefix_of_same {A} (m : M A) :
  (∀ L, preserves (λ st, debugLog st = L) m) →
  ∀ L, preserves (λ st, L `prefix_of` debugLog st) m.
Proof.
  intros H L st r st' HL Hm. by rewrite (H (debugLog st) st r st' eq_refl Hm).
Qed.

Lemma debug_prefix_makeLambda W entry L :
  preserves (λ st, L `prefix_of` debugLog st) (makeLambda host W entry).
Proof.
  intros st r st' HL Hm.
  destruct (runTrace host W (nodeFileTrace host (fsPath entry.2)) st) as [[tr|e] s1] eqn:Ht.
  - pose proof (makeLambda_debug W entry st tr s1 Ht) as H. rewrite Hm in H. simpl in H.
    rewrite H. by apply prefix_app_r.
  - pose proof (debug_same_runTrace _ _ (debugLog st) st _ _ eq_refl Ht) as H1.
    unfold makeLambda in Hm. rewrite (bind_Throw _ _ _ _ _ Ht) in Hm.
    injection Hm as _ <-. simpl in H1. by rewrite H1.
Qed.

Lemma debug_prefix_loop W api acc l L :
  preserves (λ st, L `prefix_of` debugLog st) (foldM (packageFunction host W api) acc l).
Proof.
  apply preserves_foldM. intros b a. unfold packageFunction.
  apply preserves_bind; [apply debug_prefix_makeLambda|]. intros. apply preserves_ret.
Qed.

(** What the packaging of a function leaves in the debug log is there at
    the end of the run. *)
Lemma build_debug_after inp pre entry post outs st :
  functionFiles inp = pre ++ entry :: post →
  foldM (packageFunction host (workPath inp) (apiDir (apiProxyPath inp))) ∅ pre init_state
  = (Ok outs, st) →
  debugLog (makeLambda host (workPath inp) entry st).2 `prefix_of` debugLog (build host inp).2.
Proof.
  intros Hl Hpre.
  destruct (makeLambda host (workPath inp) entry st) as [[lam|e] s2] eqn:Hx.
  - destruct (lambdaOutputsOf host inp init_state) as [r s3] eqn:Hloop.
    assert (H23 : debugLog s2 `prefix_of` debugLog s3).
    { unfold lambdaOutputsOf in Hloop. rewrite Hl, foldM_app, Hpre in Hloop.
      simpl in Hloop. rewrite (bind_Ok _ _ _ _ _ (packageFunction_Ok _ _ _ _ _ _ _ _ Hx))
        in Hloop.
      by eapply (debug_prefix_loop _ _ _ _ (debugLog s2) s2 r s3). }
    destruct r as [outs'|e].
    + rewrite (build_of_loop_Ok _ _ _ _ Hloop). by unfold finish.
    + by rewrite (build_of_loop_Throw _ _ _ _ Hloop).
  - by rewrite (build_throw_at _ _ _ _ _ _ _ _ _ Hl Hpre Hx).
Qed.

End DebugLog.

(** * The claims *)

(** ** Output names and handler references *)

Lemma normal_seg_with_ext n e :
  has_char slash n = false → has_char slash e = false → 3 ≤ String.length e →
  normal_seg (n +:+ e) = true.
Proof.
  intros Hn He Hlen. apply normal_seg_spec.
  assert (Hl : 3 ≤ String.length (n +:+ e)) by (rewrite str_length_app; lia).
  repeat split.
  - intros E. rewrite E in Hl. simpl in Hl. lia.
  - intros E. rewrite E in Hl. simpl in Hl. lia.
  - intros E. rewrite E in Hl. simpl in Hl. lia.
  - by rewrite has_char_app, Hn, He.
Qed.

Lemma split_ext_js dd n : n ≠ "" → split_ext dd (n +:+ ".js") = (n, ".js").
Proof. intros. by apply (split_ext_ext dd n "js"). Qed.

Lemma split_ext_html dd n : n ≠ "" → split_ext dd (n +:+ ".html") = (n, ".html").
Proof. intros. by apply (split_ext_ext dd n "html"). Qed.

Lemma name_of_js d n :
  n ≠ "" → has_char slash n = false →
  name (parse (n +:+ ".js")) = n ∧ name (parse (d +:+ "/" +:+ n +:+ ".js")) = n.
Proof.
  intros Hn Hs.
  assert (Hb : n +:+ ".js" ≠ "") by (intros [? _]%str_app_eq_nil; done).
  assert (Hc : has_char slash (n +:+ ".js") = false) by (by rewrite has_char_app, Hs).
  assert (He : ∀ dd, split_ext dd (n +:+ ".js") = (n, ".js")).
  { intros dd. by apply split_ext_js. }
  split.
  - rewrite parse_base by done. simpl. by rewrite He.
  - destruct (decide (d = "")) as [->|Hd].
    + rewrite str_app_nil_l, parse_root_base by done. simpl. by rewrite He.
    + rewrite parse_dir_base by done. simpl. by rewrite He.
Qed.

(** C3, as stated, fails: the nested function [bazinga/bazinga.js] is named
    [api/bazinga]; its directory is not kept. *)
Lemma C3_counterexample :
  outputName "api" "bazinga/bazinga.js" = "api/bazinga"
  ∧ outputName_spec "api" "bazinga/bazinga.js" = "api/bazinga/bazinga"
  ∧ outputName "api" "bazinga/bazinga.js" ≠ outputName_spec "api" "bazinga/bazinga.js".
Proof. by vm_compute. Qed.

(** C3, amended: the output name of a function is the mount prefix joined
    with the file name alone, [.js] stripped; whatever directory the
    function file is nested in does not appear in it. *)
Theorem C3_output_name_from_file_name (prefix : list string) (d n : string) :
  prefix ≠ [] → forallb normal_seg prefix = true → normal_seg n = true →
  outputName (rel_path prefix) (n +:+ ".js") = rel_path (prefix ++ [n])
  ∧ outputName (rel_path prefix) (d +:+ "/" +:+ n +:+ ".js") = rel_path (prefix ++ [n]).
Proof.
  intros Hp0 Hp Hn. pose proof Hn as (Hne & _ & _ & Hs)%normal_seg_spec.
  destruct (name_of_js d n Hne Hs) as [E1 E2]. unfold outputName.
  rewrite E1, E2.
  assert (join [rel_path prefix; n] = rel_path (prefix ++ [n])) as ->; [|done].
  apply (join_rel_rel prefix [n]); [done|done|done|]. simpl. by rewrite Hn.
Qed.

Lemma C3_output_name_witness :
  outputName (rel_path ["api"]) ("bazinga" +:+ ".js") = rel_path (["api"] ++ ["bazinga"])
  ∧ outputName (rel_path ["api"]) ("bazinga" +:+ "/" +:+ "bazinga" +:+ ".js")
    = rel_path (["api"] ++ ["bazinga"]).
Proof.
  apply (C3_output_name_from_file_name ["api"] "bazinga" "bazinga"); [done|reflexivity..].
Defined.

(** C4, as stated, fails: the handler reference keeps the whole directory
    of the entrypoint; [functions/graphql.js] gives
    [functions/graphql.handler], and the function built from
    [/work/api/dist/functions/graphql.js] gets
    [api/dist/functions/graphql.handler], not [graphql.handler]. *)
Lemma C4_counterexample :
  getAWSLambdaHandler "functions/graphql.js" "handler" = "functions/graphql.handler"
  ∧ getAWSLambdaHandler "functions/graphql.js" "handler" ≠ "graphql.handler"
  ∧ awsLambdaHandler <$>
      (manifest (build (Sample.host []) Sample.input) ≫= λ out, lambdaAt out "api/graphql")
    = Some "api/dist/functions/graphql.handler".
Proof. by vm_compute. Qed.

(** C4, amended: the handler reference of a function is the path of its
    entrypoint relative to the work path, directories kept and joined by
    the POSIX separator, with [.js] replaced by [.handler]. *)
Theorem C4_handler_keeps_directory {Route} (host : Host Route)
    (ws ds : list string) (n : string) (entry : string * FileFsRef)
    (st st' : State) (lam : Lambda) :
  forallb normal_seg ws = true → forallb normal_seg ds = true → ds ≠ [] →
  n ≠ "" → has_char slash n = false →
  fsPath entry.2 = abs_path (ws ++ ds ++ [n +:+ ".js"]) →
  makeLambda host (abs_path ws) entry st = (Ok lam, st') →
  awsLambdaHandler lam = rel_path (ds ++ [n]) +:+ ".handler".
Proof.
  intros Hw Hd Hd0 Hn Hs Hp (_ & -> & _)%makeLambda_fields. rewrite Hp.
  assert (Hjs : normal_seg (n +:+ ".js") = true) by (by apply normal_seg_with_ext).
  rewrite relative_below.
  2:{ by destruct ds. }
  2:{ done. }
  2:{ apply forallb_normal_app; [done|]. simpl. by rewrite Hjs. }
  unfold rel_path. rewrite !join_with_snoc by done.
  unfold getAWSLambdaHandler.
  assert (Hdir : join_with "/" ds ≠ "").
  { apply join_with_nonempty; [done|by apply normal_nonempty]. }
  rewrite parse_dir_base.
  - simpl. rewrite split_ext_js by done. simpl.
    rewrite decide_False by done. unfold sep.
    by rewrite !str_app_assoc.
  - done.
  - intros [? _]%str_app_eq_nil. done.
  - by rewrite has_char_app, Hs.
Qed.

Lemma C4_handler_witness :
  awsLambdaHandler <$>
    (match makeLambda (Sample.host []) "/work" Sample.graphql init_state with
     | (Ok lam, _) => Some lam
     | _ => None
     end)
  = Some "api/dist/functions/graphql.handler".
Proof.
  destruct (makeLambda (Sample.host []) "/work" Sample.graphql init_state)
    as [[lam|e] st'] eqn:E; [|by vm_compute in E].
  simpl. f_equal.
  exact (C4_handler_keeps_directory (Sample.host []) ["work"] ["api"; "dist"; "functions"]
           "graphql" Sample.graphql init_state st' lam
           eq_refl eq_refl ltac:(done) ltac:(done) eq_refl eq_refl E).
Defined.

(** ** Equal output names *)

(** C1, as stated, fails: [bazinga.js] and [bazinga/bazinga.js] are both
    named [api/bazinga], the static file [api/graphql] has the name of the
    function [graphql.js]; the run returns a manifest all the same, in
    which the later function has replaced the earlier one and the function
    has replaced the static file. *)
Lemma C1_counterexample :
  let r := build (Sample.host []) Sample.colliding in
  outputName "api" "bazinga.js" = outputName "api" "bazinga/bazinga.js"
  ∧ staticKey (Sample.host []) "/work/web/dist" "api/graphql"
      (Sample.ref 2 "/work/web/dist/api/graphql") = outputName "api" "graphql.js"
  ∧ handler <$> (manifest r ≫= λ out, lambdaAt out "api/bazinga")
    = Some "api/dist/functions/bazinga/bazinga.js"
  ∧ handler <$> (manifest r ≫= λ out, lambdaAt out "api/graphql")
    = Some "api/dist/functions/graphql.js"
  ∧ (manifest r ≫= λ out, staticAt out "api/graphql") = None.
Proof. by vm_compute. Qed.

(** C1, amended: equal output names never abort a run, whose only errors
    are those of packaging a function and of the route transformation; in
    the manifest returned, a name that functions have holds the function
    packaged last under it, and any other name holds the static asset
    stored last under it.  The name [__proto__] is the exception: the
    assignments store nothing under it, and the manifest never has it. *)
Theorem C1_equal_names_last_one_wins {Route} (host : Host Route) (inp : BuildInput) :
  let W := workPath inp in
  let api := apiDir (apiProxyPath inp) in
  let webDist := webDistPathOf inp in
  (∀ e st', build host inp = (Throw e, st') →
     (∃ pre entry post outs st,
        functionFiles inp = pre ++ entry :: post
        ∧ foldM (packageFunction host W api) ∅ pre init_state = (Ok outs, st)
        ∧ makeLambda host W entry st = (Throw e, st'))
     ∨ (∃ b msg, error (getTransformedRoutes host (routesConfig b)) = Some msg
                 ∧ e = {| code := None; message := msg |}))
  ∧ (∀ out st', build host inp = (Ok out, st') →
       (∀ pre entry post,
          functionFiles inp = pre ++ entry :: post →
          Forall (λ e, outputName api e.1 ≠ outputName api entry.1) post →
          outputName api entry.1 ≠ "__proto__" →
          ∃ lam sa sb, makeLambda host W entry sa = (Ok lam, sb)
                       ∧ output out !! outputName api entry.1 = Some (inl lam))
       ∧ (∀ k, Forall (λ e, outputName api e.1 ≠ k) (functionFiles inp) →
               output out !! k = inr <$> staticOutputs host webDist (webDistFiles inp) !! k)
       ∧ (∀ pre f post,
            webDistFiles inp = pre ++ f :: post →
            Forall (λ g, staticKey host webDist g.1 g.2 ≠ staticKey host webDist f.1 f.2) post →
            staticKey host webDist f.1 f.2 ≠ "__proto__" →
            staticOutputs host webDist (webDistFiles inp) !! staticKey host webDist f.1 f.2
            = Some (staticValue f.2))
       ∧ output out !! "__proto__" = None).
Proof.
  cbv zeta. split.
  - intros e st' Hb.
    destruct (lambdaOutputsOf host inp init_state) as [[outs|e1] s1] eqn:E.
    + rewrite (build_of_loop_Ok _ _ _ _ E) in Hb. unfold finish in Hb.
      right. eexists _. destruct (error _) as [msg|] eqn:Em; [|done].
      exists msg. split; [exact Em|]. by injection Hb as <- _.
    + rewrite (build_of_loop_Throw _ _ _ _ E) in Hb. injection Hb as -> ->.
      apply foldM_throw_inv in E as (pre & x & post & acc' & s & Hl & Hpre & Hx).
      left. exists pre, x, post, acc', s.
      split; [done|]. split; [done|]. by eapply packageFunction_throw_inv.
  - intros out st' (outs & s1 & Hloop & Hfin)%build_Ok_inv.
    unfold finish in Hfin. destruct (error _); [done|]. injection Hfin as <- _.
    simpl output. repeat split.
    + intros pre entry post Hl Hall Hname. unfold lambdaOutputsOf in Hloop.
      rewrite Hl in Hloop.
      destruct (lambdaOutputs_last _ _ _ _ _ _ _ _ _ _ Hloop Hall Hname)
        as (lam & sa & sb & Hlam & Hk).
      exists lam, sa, sb. split; [done|].
      rewrite lookup_union, !lookup_fmap, Hk.
      by destruct (staticOutputs _ _ _ !! _).
    + intros k Hall.
      rewrite lookup_union, !lookup_fmap.
      rewrite (lambdaOutputs_other _ _ _ _ _ _ _ _ _ Hloop Hall), lookup_empty.
      by destruct (staticOutputs _ _ _ !! _).
    + intros pre f post Hl Hall Hkey. rewrite Hl. by apply staticOutputs_last.
    + rewrite lookup_union, !lookup_fmap.
      rewrite (lambdaOutputs_proto _ _ _ _ _ _ _ _ Hloop), lookup_empty.
      by rewrite staticOutputs_proto.
Qed.

Lemma C1_equal_names_witness :
  match build (Sample.host []) Sample.colliding with
  | (Ok out, _) =>
      ∃ lam sa sb,
        makeLambda (Sample.host []) "/work" Sample.bazinga sa = (Ok lam, sb)
        ∧ output out !! "api/bazinga" = Some (inl lam)
  | _ => False
  end.
Proof.
  destruct (build (Sample.host []) Sample.colliding) as [[out|e] st'] eqn:E;
    [|by vm_compute in E].
  destruct (C1_equal_names_last_one_wins (Sample.host []) Sample.colliding) as [_ H].
  destruct (H out st' E) as [Hlast _].
  exact (Hlast [Sample.graphql; Sample.bazingaTop] Sample.bazinga [] eq_refl
           (List.Forall_nil _) ltac:(discriminate)).
Defined.

(** A project mounted at the root with a function file and a document
    named [__proto__]: both have the key [__proto__], and the manifest has
    the key of the other function only. *)
Example proto_names_leave_no_key :
  let h := Sample.host [] in
  let r := build h Sample.protoInput in
  outputName (apiDir (Some "/")) "__proto__.js" = "__proto__"
  ∧ staticKey h "/work/web/dist" "__proto__.html"
      (Sample.ref 2 "/work/web/dist/__proto__.html") = "__proto__"
  ∧ (λ out, (map_to_list (output out)).*1) <$> manifest r = Some ["graphql"].
Proof. by vm_compute. Qed.

(** ** A function whose packaging fails *)

(** C2, as stated, fails: when the lookup of the options fails for the
    second function, or when a file the resolver reported for it is not
    there to make a reference of, the run throws that error and returns no
    manifest; the first function, packaged without failure, appears
    nowhere. *)
Lemma C2_counterexample :
  let r := build Sample.strictHost Sample.input in
  let r' := build Sample.danglingHost Sample.input in
  isOk (makeLambda Sample.strictHost "/work" Sample.graphql init_state).1 = true
  ∧ r.1 = Throw Sample.optionsError
  ∧ (manifest r ≫= λ out, lambdaAt out "api/graphql") = None
  ∧ isOk (makeLambda Sample.danglingHost "/work" Sample.graphql init_state).1 = true
  ∧ r'.1 = Throw Sample.enoent
  ∧ (manifest r' ≫= λ out, lambdaAt out "api/graphql") = None.
Proof. by vm_compute. Qed.

(** C2, amended: the packaging of a function that throws ends the run with
    that error, and no manifest is returned; a run that returns holds an
    output for every function under its output name, the name [__proto__]
    apart, under which a manifest holds nothing. *)
Theorem C2_packaging_failure_aborts {Route} (host : Host Route) (inp : BuildInput) :
  let W := workPath inp in
  let api := apiDir (apiProxyPath inp) in
  (∀ pre entry post outs st e st',
     functionFiles inp = pre ++ entry :: post →
     foldM (packageFunction host W api) ∅ pre init_state = (Ok outs, st) →
     makeLambda host W entry st = (Throw e, st') →
     build host inp = (Throw e, st'))
  ∧ (∀ out st',
       build host inp = (Ok out, st') →
       Forall (λ entry, outputName api entry.1 ≠ "__proto__" →
                        is_Some (lambdaAt out (outputName api entry.1)))
         (functionFiles inp)
       ∧ lambdaAt out "__proto__" = None).
Proof.
  cbv zeta. split.
  - intros pre entry post outs st e st'. apply build_throw_at.
  - intros out st' (outs & s1 & Hloop & Hfin)%build_Ok_inv.
    unfold finish in Hfin. destruct (error _); [done|]. injection Hfin as <- _.
    split.
    + destruct (lambdaOutputs_dom _ _ _ _ _ _ _ _ Hloop) as [_ Hall].
      eapply Forall_impl; [exact Hall|]. intros entry Hentry Hname.
      destruct (Hentry Hname) as [lam Hlam].
      exists lam. unfold lambdaAt. simpl.
      rewrite lookup_union, !lookup_fmap, Hlam.
      by destruct (staticOutputs _ _ _ !! _).
    + unfold lambdaAt. simpl. rewrite lookup_union, !lookup_fmap.
      rewrite (lambdaOutputs_proto _ _ _ _ _ _ _ _ Hloop), lookup_empty.
      by rewrite staticOutputs_proto.
Qed.

Lemma C2_packaging_failure_witness :
  build Sample.strictHost Sample.input
  = (Throw Sample.optionsError,
     (makeLambda Sample.strictHost "/work" Sample.bazinga
        (makeLambda Sample.strictHost "/work" Sample.graphql init_state).2).2).
Proof.
  destruct (C2_packaging_failure_aborts Sample.strictHost Sample.input) as [H _].
  set (loop := foldM (packageFunction Sample.strictHost "/work" "api") ∅
                 [Sample.graphql] init_state).
  apply (H [Sample.graphql] Sample.bazinga []
           (match loop.1 with Ok outs => outs | Throw _ => ∅ end) loop.2).
  - reflexivity.
  - by vm_compute.
  - by vm_compute.
Defined.

(** ** The path cache *)




Lemma isMissing_false e :
  isMissing e = false ↔ code e ≠ Some "ENOENT" ∧ code e ≠ Some "EISDIR".
Proof.
  unfold isMissing. rewrite orb_false_iff, !bool_decide_eq_false. done.
Qed.




(** ** Warnings of the resolver *)

(** C10, as stated, fails: a warning without a stack is not forwarded.
    Both functions of the sample project get the two warnings below from
    the resolver; only the one with a stack reaches [debug]. *)
Lemma C10_counterexample :
  let ws := [ {| stack := None |}; {| stack := Some "Error: Cannot find module x" |} ] in
  let r := build (Sample.host ws) Sample.input in
  isOk r.1 = true
  ∧ debugLog r.2 = ["Warning: Cannot find module x"; "Warning: Cannot find module x"]
  ∧ foldM (λ _ w, surfaceWarning w) tt [ {| stack := None |} ] init_state
    = (Ok tt, init_state).
Proof. by vm_compute. Qed.

(** C10, amended: when the resolver run of a function returns, the
    packaging of the function, whether it then returns or throws, has put
    into the debug log one line for each warning of the resolver's result
    that has a non-empty stack, its stack with the first [Error: ]
    replaced by [Warning: ], in the order of the warnings, and nothing
    else: a warning without a stack puts no line there.  The lines are in
    the debug log at the end of the run.  Packaging returns the same, a
    failure included, when the resolver emits no warning at all. *)
Theorem C10_warnings_with_stack_forwarded {Route} (host : Host Route)
    (W : string) (entry : string * FileFsRef) (st s1 : State) (tr : TraceResult) :
  runTrace host W (nodeFileTrace host (fsPath entry.2)) st = (Ok tr, s1) →
  let r := makeLambda host W entry st in
  debugLog r.2 = debugLog st ++ omap forwardedLine (warnings tr)
  ∧ (∀ w s, w ∈ warnings tr → stack w = Some s → s ≠ "" →
            replace_first "Error: " "Warning: " s ∈ debugLog r.2
            ∧ ∀ inp pre post outs,
                workPath inp = W →
                functionFiles inp = pre ++ entry :: post →
                foldM (packageFunction host W (apiDir (apiProxyPath inp))) ∅ pre init_state
                = (Ok outs, st) →
                replace_first "Error: " "Warning: " s ∈ debugLog (build host inp).2)
  ∧ (Forall (λ w, stack w = None ∨ stack w = Some "") (warnings tr) →
     debugLog r.2 = debugLog st)
  ∧ r.1 = (makeLambda (muted host) W entry st).1.
Proof.
  intros Ht. cbv zeta. pose proof (makeLambda_debug host W entry st tr s1 Ht) as Hlog.
  split; [done|]. split; [|split].
  - intros w s Hw Hs Hne.
    assert (Hin : replace_first "Error: " "Warning: " s
                  ∈ debugLog (makeLambda host W entry st).2).
    { rewrite Hlog. apply elem_of_app. right.
      apply list_elem_of_omap. exists w. split; [done|].
      unfold forwardedLine. rewrite Hs. by rewrite decide_False. }
    split; [done|].
    intros inp pre post outs <- Hl Hpre.
    destruct (build_debug_after host inp pre entry post outs st Hl Hpre) as [rest ->].
    apply elem_of_app. by left.
  - intros Hall. rewrite Hlog.
    assert (Hnone : ∀ l, Forall (λ w, stack w = None ∨ stack w = Some "") l →
                         omap forwardedLine l = []).
    { induction 1 as [|w ws Hw _ IH]; [done|]. simpl.
      unfold forwardedLine at 1. destruct Hw as [-> | ->]; simpl; exact IH. }
    by rewrite (Hnone _ Hall), (right_id_L [] (++)).
  - apply makeLambda_muted.
Qed.

Lemma C10_warnings_witness :
  let ws := [ {| stack := None |}; {| stack := Some "Error: Cannot find module x" |} ] in
  debugLog (makeLambda (Sample.host ws) "/work" Sample.graphql init_state).2
  = ["Warning: Cannot find module x"]
  ∧ "Warning: Cannot find module x" ∈ debugLog (build (Sample.host ws) Sample.input).2.
Proof.
  intros ws.
  destruct (C10_warnings_with_stack_forwarded (Sample.host ws) "/work" Sample.graphql
              init_state
              (runTrace (Sample.host ws) "/work"
                 (nodeFileTrace (Sample.host ws) (fsPath Sample.graphql.2)) init_state).2
              {| fileList := ["node_modules/dep/index.js"]; esmFileList := [];
                 warnings := ws |} eq_refl) as (Hlog & Hin & _).
  split; [exact Hlog|].
  destruct (Hin {| stack := Some "Error: Cannot find module x" |}
              "Error: Cannot find module x") as [_ Hrun].
  - apply list_elem_of_In. right. left. reflexivity.
  - reflexivity.
  - discriminate.
  - exact (Hrun Sample.input [] [Sample.bazinga] ∅ eq_refl eq_refl eq_refl).
Defined.

(** ** The route table *)

Lemma webDistPath_abs (inp : BuildInput) (ws : list string) :
  forallb normal_seg ws = true → workPath inp = abs_path ws →
  webDistPathOf inp = abs_path (ws ++ ["web"; "dist"]).
Proof.
  intros Hw HW. unfold webDistPathOf. rewrite HW.
  rewrite <-(join_abs_rel ws ["web"; "dist"]) by done.
  unfold join. by rewrite !filter_cons_True, !filter_nil by done.
Qed.

(** C8, as stated, fails: the route table of the manifest is not the one
    rewrite but what the route transformation makes of the configuration.
    With a transformation that makes routes of the two modifiers too, the
    table of the sample project has five routes, the rewrite last. *)
Lemma C8_counterexample :
  let r := build Sample.expandingHost Sample.input in
  out_routes <$> manifest r
  = Some [ Sample.RedirectIndex; Sample.RedirectHtmlExtension;
           Sample.RedirectTrailingSlash; Sample.HandleFilesystem;
           Sample.RewriteTo ("/(.*)") "/index" ]
  ∧ length <$> (out_routes <$> manifest r) = Some 5
  ∧ length <$> (out_routes <$> manifest r) ≠ Some 1.
Proof. by vm_compute. Qed.

(** C8, amended: the configuration the builder hands to the route
    transformation is one rewrite whose source, a slash and then the group
    of any characters, matches every path, with clean URLs on and trailing
    slashes off, to [/200] when [200.html] exists in the static root at the
    time of the test and to [/index] otherwise; the routes of the manifest
    are those the transformation returns for it, and an error of the
    transformation is thrown. *)
Theorem C8_single_fallback_rewrite {Route} (host : Host Route) (inp : BuildInput)
    (ws : list string) (outs : gmap string Lambda) (st1 : State) :
  forallb normal_seg ws = true → workPath inp = abs_path ws →
  lambdaOutputsOf host inp init_state = (Ok outs, st1) →
  let exists200 :=
    fs_exists (fs_now host st1) (abs_path (ws ++ ["web"; "dist"; "200.html"])) in
  let cfg :=
    {| rewrites := [ {| source := "/(.*)";
                        destination := if exists200 then "/200" else "/index" |} ];
       cleanUrls := true;
       trailingSlash := false |} in
  let transformed := getTransformedRoutes host cfg in
  match error transformed with
  | Some msg => (build host inp).1 = Throw {| code := None; message := msg |}
  | None => ∃ out, (build host inp).1 = Ok out ∧ out_routes out = routes transformed
  end.
Proof.
  intros Hw HW Hloop. cbv zeta. rewrite (build_of_loop_Ok _ _ _ _ Hloop).
  unfold finish. rewrite (webDistPath_abs _ _ Hw HW).
  pose proof (join_abs_rel (ws ++ ["web"; "dist"]) ["200.html"]
                (forallb_normal_app ws ["web"; "dist"] Hw eq_refl) eq_refl) as Hj.
  change (rel_path ["200.html"]) with "200.html" in Hj.
  rewrite <-(assoc_L (++)) in Hj. simpl app in Hj. rewrite Hj.
  unfold routesConfig, fallbackHtmlPage, catchAll.
  simpl fst. destruct (error _); [done|]. eauto.
Qed.

Lemma C8_single_fallback_witness :
  ∃ out, (build (Sample.host []) Sample.input).1 = Ok out
         ∧ out_routes out
           = [ {| rewrites := [ {| source := "/(.*)"; destination := "/index" |} ];
                  cleanUrls := true; trailingSlash := false |} ].
Proof.
  destruct (lambdaOutputsOf (Sample.host []) Sample.input init_state)
    as [[outs|e] st1] eqn:E; [|by vm_compute in E].
  exact (C8_single_fallback_rewrite (Sample.host []) Sample.input ["work"] outs st1
           eq_refl eq_refl E).
Defined.

(** ** Shared dependencies *)

(** C6 does not hold of the code: [fsCache] is filled by [readFile] and
    never read ([fsCache_never_read]), and what two functions share in
    their file sets they hold as two objects ([shared_entries_distinct]).
    Both functions of the sample project depend on
    [node_modules/dep/index.js]; the path has one entry in each file set,
    but the two entries are two objects, each made by its own [lstat] of
    the path, and neither is the object [fsCache] holds for it. *)
Theorem C6_shared_dependency_not_from_cache :
  let r := build (Sample.host []) Sample.input in
  let dep := "node_modules/dep/index.js" in
  let fileOf k := manifest r ≫= λ out, lambdaAt out k ≫= λ lam, files lam !! dep in
  file_id <$> fileOf "api/graphql" = Some (NewObj 2)
  ∧ file_id <$> fileOf "api/bazinga" = Some (NewObj 4)
  ∧ file_id <$> fsCache r.2 !! dep = Some (NewObj 1)
  ∧ filter (λ c, c = Lstat "/work/node_modules/dep/index.js") (fsLog r.2)
    = [Lstat "/work/node_modules/dep/index.js"; Lstat "/work/node_modules/dep/index.js"].
Proof. by vm_compute. Qed.

(** ** Static assets *)

Lemma ends_with_last_seg suf ds x :
  has_char slash suf = false → has_char slash x = false →
  ends_with suf (rel_path (ds ++ [x])) = true → ∃ v, x = v +:+ suf.
Proof.
  intros Hs Hx. unfold ends_with. rewrite bool_decide_eq_true. intros [r Hr].
  destruct (rel_path_snoc_cases ds x) as [[E _]|[E _]]; rewrite E in Hr.
  - apply strip_suffix_Some in Hr. eauto.
  - by eapply strip_suffix_last_seg.
Qed.

Lemma ends_with_app suf v : ends_with suf (v +:+ suf) = true.
Proof. unfold ends_with. apply bool_decide_eq_true. rewrite strip_suffix_app. eauto. Qed.

(** C7, as stated, fails: [page.html.html] is an HTML document, and its
    request path [page.html] ends in [.html]; the file [blog/.html] has no
    extension and keeps its path.  Both are keys of the manifest. *)
Lemma C7_counterexample :
  let h := Sample.host [] in
  let r := build h Sample.pages in
  ext (parse "/work/web/dist/page.html.html") = ".html"
  ∧ staticKey h "/work/web/dist" "page.html.html"
      (Sample.ref 0 "/work/web/dist/page.html.html") = "page.html"
  ∧ ends_with ".html" "page.html" = true
  ∧ fsPath <$> (manifest r ≫= λ out, staticAt out "page.html")
    = Some "/work/web/dist/page.html.html"
  ∧ ext (parse "/work/web/dist/blog/.html") = ""
  ∧ fsPath <$> (manifest r ≫= λ out, staticAt out "blog/.html")
    = Some "/work/web/dist/blog/.html".
Proof. by vm_compute. Qed.

(** C7, amended: a file of the static root whose extension is not [.html]
    is stored under its relative path, unchanged; an HTML document whose
    name without the final [.html] is an ordinary file name is stored under
    its relative path with that one [.html] stripped, its content type set
    to [text/html; charset=utf-8].  A key ends in [.html] only for a file
    named [.html] alone or for a document whose stripped name still ends
    in [.html].  The file is stored under its key, unless the key is
    [__proto__], under which the assignment stores nothing. *)
Theorem C7_static_request_paths {Route} (host : Host Route)
    (ws ds : list string) (b : string) (r : FileFsRef) :
  forallb normal_seg ws = true → forallb normal_seg ds = true → normal_seg b = true →
  fsPath r = abs_path (ws ++ ds ++ [b]) →
  let webDist := abs_path ws in
  let fileName := rel_path (ds ++ [b]) in
  let key := staticKey host webDist fileName r in
  (ext (parse (fsPath r)) ≠ ".html" →
     key = fileName ∧ staticValue r = r
     ∧ (ends_with ".html" key = true → b = ".html"))
  ∧ (∀ stem, b = stem +:+ ".html" → normal_seg stem = true →
       ext (parse (fsPath r)) = ".html"
       ∧ key = rel_path (ds ++ [stem])
       ∧ contentType (staticValue r) = Some "text/html; charset=utf-8"
       ∧ fsPath (staticValue r) = fsPath r
       ∧ (ends_with ".html" key = true → ends_with ".html" stem = true))
  ∧ (key ≠ "__proto__" →
     ∀ acc, staticStep host webDist acc (fileName, r) !! key = Some (staticValue r))
  ∧ (key = "__proto__" → ∀ acc, staticStep host webDist acc (fileName, r) = acc).
Proof.
  intros Hw Hd Hb Hp. cbv zeta.
  pose proof Hb as (Hbne & _ & _ & Hbs)%normal_seg_spec.
  destruct (parse_abs_path_snoc (ws ++ ds) b Hbne Hbs) as [dd Hparse].
  rewrite <-(assoc_L (++)), <-Hp in Hparse.
  split; [|split; [|split]].
  - intros Hext. unfold staticKey, staticValue. rewrite !decide_True by done.
    split; [done|]. split; [done|].
    intros (v & Hv)%ends_with_last_seg; [|done..].
    destruct (decide (v = "")) as [->|Hvne]; [done|].
    exfalso. apply Hext. rewrite Hparse. simpl. subst b.
    by rewrite split_ext_html.
  - intros stem -> Hstem.
    pose proof Hstem as (Hsne & _ & _ & Hss)%normal_seg_spec.
    assert (Hext : ext (parse (fsPath r)) = ".html").
    { rewrite Hparse. simpl. by rewrite split_ext_html. }
    split; [done|].
    assert (Hkey : staticKey host (abs_path ws) (rel_path (ds ++ [stem +:+ ".html"])) r
                   = rel_path (ds ++ [stem])).
    { unfold staticKey. rewrite decide_False by (intros H; by apply H).
      rewrite Hparse. simpl dir.
      rewrite basename_rel_path by done.
      change stem with (rel_path [stem]) at 1.
      rewrite join_abs_rel.
      - rewrite <-(assoc_L (++)). apply relative_below.
        + by destruct ds.
        + done.
        + apply forallb_normal_app; [done|]. simpl. by rewrite Hstem.
      - by apply forallb_normal_app.
      - simpl. by rewrite Hstem. }
    split; [done|]. unfold staticValue.
    rewrite decide_False by (intros H; by apply H). simpl.
    split; [done|]. split; [done|]. rewrite Hkey.
    intros (v & ->)%ends_with_last_seg; [|done..]. apply ends_with_app.
  - intros Hkey acc. unfold staticStep. simpl. by apply lookup_assign_eq.
  - intros Hkey acc. unfold staticStep, assign. simpl. by rewrite decide_True.
Qed.

Lemma C7_static_request_witness :
  let h := Sample.host [] in
  let r := Sample.ref 0 "/work/web/dist/blog/post.html" in
  ext (parse (fsPath r)) = ".html"
  ∧ staticKey h "/work/web/dist" "blog/post.html" r = "blog/post"
  ∧ contentType (staticValue r) = Some "text/html; charset=utf-8"
  ∧ fsPath (staticValue r) = fsPath r
  ∧ (ends_with ".html" (staticKey h "/work/web/dist" "blog/post.html" r) = true
     → ends_with ".html" "post" = true).
Proof.
  intros h r.
  destruct (C7_static_request_paths h ["work"; "web"; "dist"] ["blog"] "post.html" r
              eq_refl eq_refl eq_refl eq_refl) as (_ & H & _).
  exact (H "post" eq_refl eq_refl).
Defined.

(** * Further properties of the builder *)

(** ** The environment (lines 57-64) *)

Lemma strip_prefix_app pre s : strip_prefix pre (pre +:+ s) = Some s.
Proof.
  induction pre as [|c pre IH]; [by destruct s|].
  rewrite str_app_cons. simpl. by rewrite decide_True.
Qed.

Lemma strip_prefix_Some pre s r : strip_prefix pre s = Some r → s = pre +:+ r.
Proof.
  revert s. induction pre as [|c pre IH]; intros s.
  - destruct s; simpl; by intros [= <-].
  - destruct s as [|d s]; [done|]. simpl. case_decide; [|done]. subst.
    intros H%IH. by rewrite str_app_cons, H.
Qed.

Lemma redwood_not_vercel key : startsWith "VERCEL_" ("REDWOOD_ENV_" +:+ key) = false.
Proof. reflexivity. Qed.

Lemma propagate_fold_lookup l env k :
  Forall (λ key, startsWith "VERCEL_" key = true) l →
  foldl propagateStep env l !! k
  = match env !! k with
    | Some v => Some v
    | None =>
        match strip_prefix "REDWOOD_ENV_" k with
        | Some k0 => if decide (k0 ∈ l) then Some (default "undefined" (env !! k0)) else None
        | None => None
        end
    end.
Proof.
  revert env. induction l as [|x l IH]; intros env Hall.
  - cbn [foldl]. destruct (env !! k); [done|].
    destruct (strip_prefix "REDWOOD_ENV_" k) as [k0|]; [|done].
    rewrite decide_False; [done|]. by intros ?%elem_of_nil.
  - apply Forall_cons in Hall as [Hx Hl]. cbn [foldl]. rewrite (IH _ Hl).
    assert (Hkeep : ∀ k0, k0 ∈ l → propagateStep env x !! k0 = env !! k0).
    { intros k0 Hk0. unfold propagateStep. case_decide; [done|].
      apply lookup_insert_ne. intros <-.
      rewrite Forall_forall in Hl. apply Hl in Hk0. by rewrite redwood_not_vercel in Hk0. }
    unfold propagateStep at 1 2. destruct (decide (is_Some (env !! ("REDWOOD_ENV_" +:+ x))))
      as [[v Hv]|Hnone].
    + destruct (env !! k) eqn:Ek; [done|].
      destruct (strip_prefix "REDWOOD_ENV_" k) as [k0|] eqn:Es; [|done].
      apply strip_prefix_Some in Es. subst k.
      destruct (decide (k0 = x)) as [->|Hne]; [congruence|].
      destruct (decide (k0 ∈ l)) as [Hin|Hnin].
      * by rewrite decide_True by (by right).
      * rewrite decide_False; [done|]. by intros [?|?]%elem_of_cons.
    + destruct (decide (k = "REDWOOD_ENV_" +:+ x)) as [->|Hk].
      * rewrite lookup_insert_eq.
        assert (env !! ("REDWOOD_ENV_" +:+ x) = None) as ->.
        { by apply eq_None_not_Some. }
        rewrite strip_prefix_app. rewrite decide_True; [done|by left].
      * rewrite lookup_insert_ne by done.
        destruct (env !! k) eqn:Ek; [done|].
        destruct (strip_prefix "REDWOOD_ENV_" k) as [k0|] eqn:Es; [|done].
        apply strip_prefix_Some in Es. subst k.
        assert (k0 ≠ x) by congruence.
        destruct (decide (k0 ∈ l)) as [Hin|Hnin].
        -- rewrite decide_True by (by right).
           f_equal. f_equal. rewrite <-(Hkeep _ Hin). unfold propagateStep.
           by rewrite decide_False.
        -- rewrite decide_False; [done|]. by intros [?|?]%elem_of_cons.
Qed.

(** X1: after the loop of lines 57-64 every variable the environment had
    is as it was, and a name it did not have is set exactly when it is
    [REDWOOD_ENV_] followed by the name of a variable that starts with
    [VERCEL_], to the value of that variable; the order of the keys does
    not matter. *)
Theorem env_propagation_lookup (keys : list string) (env : gmap string string) (k : string) :
  (∀ key, key ∈ keys ↔ is_Some (env !! key)) →
  propagateEnv keys env !! k
  = match env !! k with
    | Some v => Some v
    | None =>
        match strip_prefix "REDWOOD_ENV_" k with
        | Some k0 => if startsWith "VERCEL_" k0 then env !! k0 else None
        | None => None
        end
    end.
Proof.
  intros Hkeys. unfold propagateEnv. rewrite propagate_fold_lookup.
  2:{ apply Forall_forall. by intros key [? _]%list_elem_of_filter. }
  destruct (env !! k); [done|]. destruct (strip_prefix "REDWOOD_ENV_" k) as [k0|]; [|done].
  destruct (startsWith "VERCEL_" k0) eqn:Hv.
  - destruct (env !! k0) as [v|] eqn:E0.
    + rewrite decide_True; [done|]. apply list_elem_of_filter. split; [done|].
      apply Hkeys. by rewrite E0.
    + rewrite decide_False; [done|]. intros [_ Hin%Hkeys]%list_elem_of_filter.
      rewrite E0 in Hin. by destruct Hin.
  - rewrite decide_False; [done|]. intros [? _]%list_elem_of_filter. congruence.
Qed.

Lemma env_propagation_witness :
  let env : gmap string string := <["VERCEL_URL" := "x.vercel.app"]> (<["HOME" := "/root"]> ∅) in
  propagateEnv ["HOME"; "VERCEL_URL"] env !! "REDWOOD_ENV_VERCEL_URL" = Some "x.vercel.app".
Proof.
  intros env.
  rewrite (env_propagation_lookup ["HOME"; "VERCEL_URL"] env "REDWOOD_ENV_VERCEL_URL").
  - reflexivity.
  - intros key. unfold env. rewrite !lookup_insert_is_Some, lookup_empty, !elem_of_cons,
      elem_of_nil. split.
    + intros [->|[->|[]]]; [right; split; [done|by left]|by left].
    + intros [<-|[_ [<-|[? ?]]]]; [by right; left|by left|done].
Defined.

(** X2: running the loop a second time changes nothing. *)
Theorem env_propagation_idempotent (keys keys' : list string) (env : gmap string string) :
  (∀ key, key ∈ keys ↔ is_Some (env !! key)) →
  (∀ key, key ∈ keys' ↔ is_Some (propagateEnv keys env !! key)) →
  propagateEnv keys' (propagateEnv keys env) = propagateEnv keys env.
Proof.
  intros Hk Hk'. apply map_eq. intros k.
  rewrite (env_propagation_lookup keys' _ k Hk').
  destruct (propagateEnv keys env !! k) as [v|] eqn:E; [done|].
  destruct (strip_prefix "REDWOOD_ENV_" k) as [k0|] eqn:Es; [|done].
  destruct (startsWith "VERCEL_" k0) eqn:Hv; [|done].
  rewrite (env_propagation_lookup keys env k Hk), Es, Hv in E.
  rewrite (env_propagation_lookup keys env k0 Hk).
  destruct (env !! k) eqn:Ek; [done|].
  rewrite E.
  destruct (strip_prefix "REDWOOD_ENV_" k0) as [k1|] eqn:Es0; [|done].
  apply strip_prefix_Some in Es0. subst k0. by rewrite redwood_not_vercel in Hv.
Qed.

Lemma env_propagation_idempotent_witness :
  let env : gmap string string := <["VERCEL_URL" := "x.vercel.app"]> ∅ in
  propagateEnv ["VERCEL_URL"; "REDWOOD_ENV_VERCEL_URL"] (propagateEnv ["VERCEL_URL"] env)
  = propagateEnv ["VERCEL_URL"] env.
Proof.
  intros env. apply env_propagation_idempotent.
  - intros key. unfold env. rewrite lookup_insert_is_Some, lookup_empty, elem_of_cons,
      elem_of_nil. split.
    + intros [->|[]]. by left.
    + intros [<-|[_ [? ?]]]; [by left|done].
  - intros key. change (propagateEnv ["VERCEL_URL"] env)
      with (<["REDWOOD_ENV_VERCEL_URL" := "x.vercel.app"]> env).
    unfold env. rewrite !lookup_insert_is_Some, lookup_empty, !elem_of_cons, elem_of_nil.
    split.
    + intros [->|[->|[]]]; [right; split; [done|by left]|by left].
    + intros [<-|[_ [<-|[? ?]]]]; [by right; left|by left|done].
Defined.

(** ** The file set and the options of a function (lines 265-290) *)

Section FileSet.
Context {Route : Type}.
Variable host : Host Route.

Lemma fromFsPath_Ok_path p st r s1 :
  fromFsPath host p st = (Ok r, s1) → fsPath r = p ∧ contentType r = None.
Proof.
  unfold fromFsPath, mbind, M_bind, lstat, new_id, mret, M_ret.
  destruct (of_sum _); [|done]. by intros [= <- <-].
Qed.

Lemma addLambdaFiles_keys W l acc st lf st' :
  foldM (addLambdaFile host W) acc l st = (Ok lf, st') →
  (∀ k, is_Some (lf !! k) ↔ is_Some (acc !! k) ∨ (k ∈ l ∧ k ≠ "__proto__"))
  ∧ ∀ k f, lf !! k = Some f →
           acc !! k = Some f
           ∨ ∃ r, f = IsFsRef r ∧ fsPath r = join [W; k] ∧ contentType r = None.
Proof.
  revert acc st. induction l as [|x l IH]; intros acc st; simpl.
  - intros [= <- _]. split; [|intros k f Hk; by left].
    intros k. split; [by left|]. intros [?|[Hk _]]; [done|]. by apply elem_of_nil in Hk.
  - intros (acc1 & s1 & Hx & Hl)%bind_inv_Ok.
    unfold addLambdaFile in Hx.
    apply bind_inv_Ok in Hx as (r & s1' & Hr & [= <- <-]).
    destruct (fromFsPath_Ok_path _ _ _ _ Hr) as [Hp Hc].
    destruct (IH _ _ Hl) as [Hdom Hval]. split.
    + intros k. rewrite Hdom, lookup_assign_is_Some, elem_of_cons. split.
      * intros [[[-> ?]|?]|[? ?]]; [right; split; [by left|done]|by left|].
        right. split; [by right|done].
      * intros [?|[[->|?] ?]]; [left; by right|left; left; by split|by right].
    + intros k f Hk. destruct (Hval k f Hk) as [Hacc|?]; [|by right].
      apply lookup_assign_Some in Hacc as [(-> & _ & ->)|Hacc]; [|by left].
      right. by exists r.
Qed.

(** X3: the file set of a function has a key for the entrypoint and for
    every path the resolver reported, and no other key; the path
    [__proto__] alone gets no key.  Under the entrypoint's key it holds the
    very reference [glob] made, whether or not the resolver reported the
    entrypoint; under every other key it holds a reference to the work
    path joined with the key. *)
Theorem file_set_of_function (W : string) (entry : string * FileFsRef)
    (st s1 st' : State) (tr : TraceResult) (lam : Lambda) :
  runTrace host W (nodeFileTrace host (fsPath entry.2)) st = (Ok tr, s1) →
  makeLambda host W entry st = (Ok lam, st') →
  let own := relative (cwd host) W (fsPath entry.2) in
  dom (files lam)
  = ({[own]} ∪ list_to_set (fileList tr ++ esmFileList tr)) ∖ {["__proto__"]}
  ∧ (own ≠ "__proto__" → files lam !! own = Some (IsFsRef entry.2))
  ∧ ∀ k f, k ≠ own → files lam !! k = Some f →
           ∃ r, f = IsFsRef r ∧ fsPath r = join [W; k] ∧ contentType r = None.
Proof.
  intros Ht. unfold makeLambda. rewrite (bind_Ok _ _ _ _ _ Ht).
  intros (u & s2 & _ & (lf & s3 & Hf & (opts & s4 & _ & H)%bind_inv_Ok
    )%bind_inv_Ok)%bind_inv_Ok.
  injection H as <- _. cbv zeta. simpl files.
  destruct (addLambdaFiles_keys _ _ _ _ _ _ Hf) as [Hdom Hval].
  split; [|split].
  - apply set_eq. intros k.
    rewrite elem_of_dom, lookup_assign_is_Some, Hdom, lookup_empty.
    rewrite elem_of_difference, elem_of_union, !elem_of_singleton, elem_of_list_to_set.
    split.
    + intros [[-> ?]|[[? ?]|[? ?]]]; [by split; [left|]|done|by split; [right|]].
    + intros [[->|?] ?]; [by left|]. right. by right.
  - intros Hown. by apply lookup_assign_eq.
  - intros k f Hne. rewrite lookup_assign_ne by done. intros Hk.
    destruct (Hval k f Hk) as [Hemp|?]; [by rewrite lookup_empty in Hemp|done].
Qed.

Lemma rel_path_cons s l : l ≠ [] → rel_path (s :: l) = s +:+ "/" +:+ rel_path l.
Proof. apply join_with_cons. Qed.

(** X4: the options of a function built under [api/dist/functions] are
    looked up under its path below [api/src/functions]: only the first
    [/dist/] of the relative entrypoint is replaced, so that directories
    named [dist] further down stay. *)
Theorem options_looked_up_by_source_path (ws sub : list string) (n : string)
    (entry : string * FileFsRef) (st st' : State) (lam : Lambda) :
  forallb normal_seg ws = true → forallb normal_seg sub = true →
  has_char slash n = false →
  fsPath entry.2 = abs_path (ws ++ ["api"; "dist"; "functions"] ++ sub ++ [n +:+ ".js"]) →
  makeLambda host (abs_path ws) entry st = (Ok lam, st') →
  getLambdaOptionsFromFunction host
    (rel_path (["api"; "src"; "functions"] ++ sub ++ [n +:+ ".js"]))
  = Ok (memory lam, maxDuration lam).
Proof.
  intros Hw Hsub Hn Hp. unfold makeLambda.
  intros (tr & s1 & _ & (u & s2 & _ & (lf & s3 & _ & (opts & s4 & Ho & H)%bind_inv_Ok
    )%bind_inv_Ok)%bind_inv_Ok)%bind_inv_Ok.
  injection H as <- _. simpl. injection Ho as Ho _. destruct opts as [m d].
  simpl. rewrite <-Ho. f_equal.
  rewrite Hp.
  assert (Hjs : normal_seg (n +:+ ".js") = true) by (by apply normal_seg_with_ext).
  assert (Hrest : forallb normal_seg (sub ++ [n +:+ ".js"]) = true).
  { apply forallb_normal_app; [done|]. simpl. by rewrite Hjs. }
  rewrite relative_below; [|done|done|].
  2:{ by apply (forallb_normal_app ["api"; "dist"; "functions"]). }
  change (["api"; "dist"; "functions"] ++ sub ++ [n +:+ ".js"])
    with ("api" :: "dist" :: "functions" :: (sub ++ [n +:+ ".js"])).
  change (["api"; "src"; "functions"] ++ sub ++ [n +:+ ".js"])
    with ("api" :: "src" :: "functions" :: (sub ++ [n +:+ ".js"])).
  assert (Hne : sub ++ [n +:+ ".js"] ≠ []) by (by destruct sub).
  rewrite !rel_path_cons by done. reflexivity.
Qed.

End FileSet.

Lemma file_set_witness :
  let h := Sample.host [] in
  match makeLambda h "/work" Sample.graphql init_state with
  | (Ok lam, _) =>
      dom (files lam)
      = ({["api/dist/functions/graphql.js"]}
         ∪ list_to_set (["node_modules/dep/index.js"] ++ [])) ∖ {["__proto__"]}
  | _ => False
  end.
Proof.
  intros h.
  destruct (makeLambda h "/work" Sample.graphql init_state) as [[lam|e] st'] eqn:E;
    [|by vm_compute in E].
  destruct (runTrace h "/work" (nodeFileTrace h (fsPath Sample.graphql.2)) init_state)
    as [[tr|e] s1] eqn:Et; [|by vm_compute in Et].
  assert (tr = {| fileList := ["node_modules/dep/index.js"]; esmFileList := [];
                  warnings := [] |}) as Htr.
  { vm_compute in Et. by injection Et as <- _. }
  destruct (file_set_of_function h "/work" Sample.graphql init_state s1 st' tr lam Et E)
    as [Hdom _].
  rewrite Hdom, Htr. reflexivity.
Defined.

Lemma options_witness :
  match makeLambda (Sample.host []) "/work" Sample.bazinga init_state with
  | (Ok lam, _) =>
      getLambdaOptionsFromFunction (Sample.host [])
        (rel_path (["api"; "src"; "functions"] ++ ["bazinga"] ++ ["bazinga" +:+ ".js"]))
      = Ok (memory lam, maxDuration lam)
  | _ => False
  end.
Proof.
  destruct (makeLambda (Sample.host []) "/work" Sample.bazinga init_state)
    as [[lam|e] st'] eqn:E; [|by vm_compute in E].
  exact (options_looked_up_by_source_path (Sample.host []) ["work"] ["bazinga"] "bazinga"
           Sample.bazinga
           init_state st' lam eq_refl eq_refl eq_refl eq_refl E).
Defined.

(** ** Invariants of the two caches *)

Section Invariants.
Context {Route : Type}.
Variable host : Host Route.

Lemma quiet_refl st : quiet st st.
Proof.
  split; [done|]. split; [done|]. exists []. split; [|done].
  by rewrite (right_id_L [] (++)).
Qed.

Lemma quiet_fromFsPath p st r st' : fromFsPath host p st = (r, st') → quiet st st'.
Proof.
  unfold fromFsPath, mbind, M_bind, lstat, new_id, mret, M_ret.
  destruct (of_sum _); intros [= _ <-]; (split; [done|]; split; [done|]);
    exists [Lstat p]; (split; [done|]); by repeat constructor.
Qed.

Lemma quiet_surfaceWarning w st r st' : surfaceWarning w st = (r, st') → quiet st st'.
Proof.
  unfold surfaceWarning, debug, modify, mret, M_ret.
  destruct (stack w) as [s|]; [case_decide|]; intros [= _ <-];
    (split; [done|]; split; [done|]); exists []; (split; [|done]);
    simpl; by rewrite (right_id_L [] (++)).
Qed.

Lemma quiet_existsSync p st r st' : existsSync host p st = (r, st') → quiet st st'.
Proof.
  unfold existsSync. intros [= _ <-]. split; [done|]. split; [done|].
  exists [ExistsSync p]. split; [done|]. by repeat constructor.
Qed.

Lemma coherent_quiet st st' : quiet st st' → coherent st → coherent st'.
Proof. intros (Hs & Hf & _) H key. rewrite Hs, Hf. apply H. Qed.

(** *** [coherent] *)

Lemma preserves_quiet {A} I (m : M A) :
  (∀ st st', quiet st st' → I st → I st') →
  (∀ st r st', m st = (r, st') → quiet st st') → preserves I m.
Proof. intros HI Hq st r st' H Hm. eapply HI; [by eapply Hq|done]. Qed.

Lemma coherent_readFile W p : preserves coherent (readFile host W p).
Proof.
  intros st r st' HI.
  destruct (sourceCache st !! relative (cwd host) W p) as [v|] eqn:Hc.
  - rewrite (readFile_cached _ _ _ _ _ Hc). by intros [= _ <-].
  - rewrite (readFile_uncached _ _ _ _ Hc). unfold firstRead.
    assert (Hf : fsCache st !! relative (cwd host) W p = None).
    { specialize (HI (relative (cwd host) W p)). rewrite Hc in HI.
      destruct (fsCache st !! _) as [[r0|b]|]; [|by destruct HI|done].
      by destruct HI as [[? ?] _]. }
    assert (Hmiss : ∀ s, sourceCache s = sourceCache st → fsCache s = fsCache st →
                         coherent (set_sourceCache (relative (cwd host) W p) None s)).
    { intros s Hs Hfs key. unfold set_sourceCache. simpl. rewrite Hs, Hfs.
      destruct (decide (key = relative (cwd host) W p)) as [->|Hne].
      - rewrite Hf, lookup_insert_eq. by right.
      - rewrite lookup_insert_ne by done. apply HI. }
    assert (Hsame : ∀ s, sourceCache s = sourceCache st → fsCache s = fsCache st →
                         coherent s).
    { intros s Hs Hfs key. rewrite Hs, Hfs. apply HI. }
    destruct (fs_readFile _ p) as [source|e].
    + destruct (fs_lstat _ p) as [mode|e].
      * intros [= _ <-] key. simpl.
        destruct (decide (key = relative (cwd host) W p)) as [->|Hne].
        -- rewrite !lookup_insert_eq. destruct (isSymbolicLink mode) eqn:Hm; simpl.
           ++ split; [by eexists|done].
           ++ done.
        -- rewrite !lookup_insert_ne by done. apply HI.
      * destruct (isMissing e); intros [= _ <-]; [by apply Hmiss|by apply Hsame].
    + destruct (isMissing e); intros [= _ <-]; [by apply Hmiss|by apply Hsame].
Qed.

Lemma coherent_runTrace W t : preserves coherent (runTrace host W t).
Proof.
  induction t as [r|e|p k IH]; simpl.
  - apply preserves_ret.
  - apply preserves_throw.
  - apply preserves_bind; [apply preserves_attempt, coherent_readFile|done].
Qed.

Lemma coherent_makeLambda W entry : preserves coherent (makeLambda host W entry).
Proof.
  unfold makeLambda.
  apply preserves_bind; [apply coherent_runTrace|]. intros tr.
  apply preserves_bind.
  { apply preserves_foldM. intros _ w. apply (preserves_quiet _ _ coherent_quiet), quiet_surfaceWarning. }
  intros _. apply preserves_bind.
  { apply preserves_foldM. intros b a. unfold addLambdaFile.
    apply preserves_bind; [apply (preserves_quiet _ _ coherent_quiet), quiet_fromFsPath|].
    intros. apply preserves_ret. }
  intros lf. apply preserves_bind; [apply preserves_liftResult|]. intros.
  apply preserves_ret.
Qed.

Lemma coherent_buildM inp : preserves coherent (buildM host inp).
Proof.
  unfold buildM. apply preserves_bind.
  { unfold lambdaOutputsOf. apply preserves_foldM. intros b a. unfold packageFunction.
    apply preserves_bind; [apply coherent_makeLambda|]. intros. apply preserves_ret. }
  intros outs. apply preserves_bind; [apply (preserves_quiet _ _ coherent_quiet), quiet_existsSync|].
  intros ex. destruct (error _); [apply preserves_throw|apply preserves_ret].
Qed.

(** X5: however a run ends, [fsCache] holds an entry exactly for the paths
    whose content [sourceCache] holds: for a regular file a blob with the
    very bytes cached, for a symbolic link a reference (the link is not
    followed); a path cached as not found has none. *)
Theorem caches_coherent (inp : BuildInput) : coherent (build host inp).2.
Proof.
  destruct (build host inp) as [r st'] eqn:E. simpl.
  eapply (coherent_buildM inp init_state r st'); [|exact E].
  intros key. simpl. rewrite !lookup_empty. by left.
Qed.

(** *** [retried] *)

Lemma lookup_read_quiet (log calls : list FsCall) i p :
  Forall (λ c, ∀ q, c ≠ ReadFileSync q) calls →
  (log ++ calls) !! i = Some (ReadFileSync p) → log !! i = Some (ReadFileSync p).
Proof.
  intros Hc [?|[_ Hi]]%lookup_app_Some; [done|].
  rewrite Forall_lookup in Hc. by destruct (Hc _ _ Hi p).
Qed.

Lemma retried_quiet W st st' : quiet st st' → retried host W st → retried host W st'.
Proof.
  intros (Hs & _ & calls & Hl & Hc) [H1 H2]. split.
  - intros i p Hi. rewrite Hs. rewrite Hl in Hi.
    apply (lookup_read_quiet _ _ _ _ Hc) in Hi. by apply H1.
  - intros i j p q Hij Hi Hj. rewrite Hl in Hi, Hj.
    apply (lookup_read_quiet _ _ _ _ Hc) in Hi, Hj. by eapply H2.
Qed.

(** A read on the disk of a path that is not cached, followed by calls
    that read nothing: either the path is cached then, or the attempt
    failed with an error that is not cached. *)
Lemma retried_after_read W p st s tail :
  retried host W st →
  sourceCache st !! relative (cwd host) W p = None →
  fsLog s = fsLog st ++ ReadFileSync p :: tail →
  Forall (λ c, ∀ q, c ≠ ReadFileSync q) tail →
  (∃ v, sourceCache s = <[relative (cwd host) W p := v]> (sourceCache st))
  ∨ (sourceCache s = sourceCache st
     ∧ ∃ e, attemptFails host (length (fsLog st)) p e ∧ isMissing e = false) →
  retried host W s.
Proof.
  intros [H1 H2] Hc Hl Ht Hcase.
  assert (Hlook : ∀ i q, fsLog s !! i = Some (ReadFileSync q) →
                         fsLog st !! i = Some (ReadFileSync q)
                         ∨ (i = length (fsLog st) ∧ q = p)).
  { intros i q. rewrite Hl. intros [?|[Hge Hi]]%lookup_app_Some; [by left|].
    destruct (i - length (fsLog st)) as [|d] eqn:Ed.
    - injection Hi as <-. right. split; [lia|done].
    - simpl in Hi. rewrite Forall_lookup in Ht. by destruct (Ht _ _ Hi q). }
  assert (Hold : ∀ q, sourceCache s !! relative (cwd host) W q = None →
                      sourceCache st !! relative (cwd host) W q = None).
  { intros q. destruct Hcase as [[v ->]|[-> _]]; [|done].
    rewrite lookup_insert. by case_decide. }
  split.
  - intros i q [Hi|[-> ->]]%Hlook Hq; [by eapply H1, Hold|].
    destruct Hcase as [[v Hs]|[_ ?]]; [|done].
    by rewrite Hs, lookup_insert_eq in Hq.
  - intros i j q q' Hij [Hi|[-> ->]]%Hlook [Hj|[-> ->]]%Hlook Hkey.
    + by eapply H2.
    + apply (H1 i q Hi). by rewrite Hkey.
    + apply lookup_lt_Some in Hj. lia.
    + lia.
Qed.

Lemma retried_readFile W p : preserves (retried host W) (readFile host W p).
Proof.
  intros st r st' HI.
  destruct (sourceCache st !! relative (cwd host) W p) as [v|] eqn:Hc.
  - rewrite (readFile_cached _ _ _ _ _ Hc). by intros [= _ <-].
  - rewrite (readFile_uncached _ _ _ _ Hc). unfold firstRead.
    assert (Ht1 : Forall (λ c : FsCall, ∀ q, c ≠ ReadFileSync q) [LstatSync p])
      by (by repeat constructor).
    destruct (fs_readFile (fs_now host st) p) as [source|e] eqn:Hr.
    + destruct (fs_lstat (fs_now host (log_fs (ReadFileSync p) st)) p) as [mode|e] eqn:Hs.
      * intros [= _ <-].
        apply (retried_after_read W p st _ [LstatSync p] HI Hc); simpl;
          [by rewrite <-(assoc_L (++))|done|]. left. by eexists.
      * destruct (isMissing e) eqn:Hm; intros [= _ <-];
          (apply (retried_after_read W p st _ [LstatSync p] HI Hc); simpl;
           [by rewrite <-(assoc_L (++))|done|]).
        -- left. by eexists.
        -- right. split; [done|]. exists e. split; [|done]. right. split; [by eexists|].
           unfold fs_now, log_fs in Hs. simpl in Hs.
           by rewrite length_app, Nat.add_1_r in Hs.
    + destruct (isMissing e) eqn:Hm; intros [= _ <-];
        (apply (retried_after_read W p st _ [] HI Hc); simpl; [done|done|]).
      * left. by eexists.
      * right. split; [done|]. exists e. split; [|done]. by left.
Qed.

Lemma retried_runTrace W t : preserves (retried host W) (runTrace host W t).
Proof.
  induction t as [r|e|p k IH]; simpl.
  - apply preserves_ret.
  - apply preserves_throw.
  - apply preserves_bind; [apply preserves_attempt, retried_readFile|done].
Qed.

Lemma retried_makeLambda W entry : preserves (retried host W) (makeLambda host W entry).
Proof.
  unfold makeLambda.
  apply preserves_bind; [apply retried_runTrace|]. intros tr.
  apply preserves_bind.
  { apply preserves_foldM. intros _ w.
    apply (preserves_quiet _ _ (retried_quiet W)), quiet_surfaceWarning. }
  intros _. apply preserves_bind.
  { apply preserves_foldM. intros b a. unfold addLambdaFile.
    apply preserves_bind; [apply (preserves_quiet _ _ (retried_quiet W)), quiet_fromFsPath|].
    intros. apply preserves_ret. }
  intros lf. apply preserves_bind; [apply preserves_liftResult|]. intros.
  apply preserves_ret.
Qed.

Lemma retried_buildM inp : preserves (retried host (workPath inp)) (buildM host inp).
Proof.
  unfold buildM. apply preserves_bind.
  { unfold lambdaOutputsOf. apply preserves_foldM. intros b a. unfold packageFunction.
    apply preserves_bind; [apply retried_makeLambda|]. intros. apply preserves_ret. }
  intros outs.
  apply preserves_bind;
    [apply (preserves_quiet _ _ (retried_quiet (workPath inp))), quiet_existsSync|].
  intros ex. destruct (error _); [apply preserves_throw|apply preserves_ret].
Qed.

(** X6: in a whole run, however it ends and whatever the resolver does
    with the errors of its callback, a path is read on the disk a second
    time only after a failure that is not cached: when [readFileSync] is
    called twice for one project-relative path, the attempt begun by the
    earlier call failed, at [readFileSync] or at the [lstatSync] after it,
    with an error whose code is neither [ENOENT] nor [EISDIR]. *)
Theorem path_read_again_only_after_failure (inp : BuildInput) (i j : nat) (p q : string) :
  let log := fsLog (build host inp).2 in
  i < j →
  log !! i = Some (ReadFileSync p) → log !! j = Some (ReadFileSync q) →
  relative (cwd host) (workPath inp) p = relative (cwd host) (workPath inp) q →
  ∃ e, attemptFails host i p e ∧ code e ≠ Some "ENOENT" ∧ code e ≠ Some "EISDIR".
Proof.
  cbv zeta. destruct (build host inp) as [r st'] eqn:E. simpl.
  assert (Hinit : retried host (workPath inp) init_state).
  { split; [intros k p' Hk|intros k k' p' q' _ Hk]; simpl in Hk;
      by rewrite lookup_nil in Hk. }
  destruct (retried_buildM inp init_state r st' Hinit E) as [_ H].
  intros Hij Hi Hj Hkey. destruct (H i j p q Hij Hi Hj Hkey) as (e & Hf & Hm).
  exists e. split; [done|]. by apply isMissing_false.
Qed.

End Invariants.

Lemma path_read_again_witness :
  ∃ e, attemptFails Sample.tolerantHost 2 "/work/locked.js" e
       ∧ code e ≠ Some "ENOENT" ∧ code e ≠ Some "EISDIR".
Proof.
  apply (path_read_again_only_after_failure Sample.tolerantHost Sample.input 2 5
           "/work/locked.js" "/work/locked.js"); [lia|reflexivity..].
Defined.

(** ** The static outputs and the keys of the manifest *)

Section Manifest.
Context {Route : Type}.
Variable host : Host Route.

Lemma staticOutputs_fold_Some W files acc k v :
  foldl (staticStep host W) acc files !! k = Some v →
  acc !! k = Some v
  ∨ (k ≠ "__proto__"
     ∧ ∃ e, e ∈ files ∧ staticKey host W e.1 e.2 = k ∧ v = staticValue e.2).
Proof.
  revert acc. induction files as [|e files IH]; intros acc; [by left|].
  cbn [foldl]. intros [Hacc|(Hk & e' & He' & Hk' & Hv)]%IH.
  - unfold staticStep in Hacc.
    apply lookup_assign_Some in Hacc as [(-> & Hp & ->)|Hacc]; [|by left].
    right. split; [done|]. exists e. split; [by left|done].
  - right. split; [done|]. exists e'. split; [by right|done].
Qed.

Lemma staticOutputs_fold_is_Some W files acc k :
  is_Some (acc !! k) ∨ (k ≠ "__proto__" ∧ ∃ e, e ∈ files ∧ staticKey host W e.1 e.2 = k) →
  is_Some (foldl (staticStep host W) acc files !! k).
Proof.
  revert acc. induction files as [|e files IH]; intros acc.
  - intros [?|(_ & e & He & _)]; [done|]. by apply elem_of_nil in He.
  - cbn [foldl]. intros H. apply IH. unfold staticStep at 1.
    rewrite lookup_assign_is_Some.
    destruct H as [?|(Hp & e' & [->|He']%elem_of_cons & Hk')].
    + left. by right.
    + left. left. by subst k.
    + right. split; [done|]. by exists e'.
Qed.

(** X7: a static output is under a key exactly when some file of the
    static root has that key and the key is not [__proto__], and what is
    stored is such a file (with its content type set if it is a
    document): no key is made up, and no file but one whose key is
    [__proto__] is left without its key. *)
Theorem static_outputs_from_files (W : string) (files : list (string * FileFsRef))
    (k : string) :
  (is_Some (staticOutputs host W files !! k)
   ↔ k ≠ "__proto__" ∧ ∃ e, e ∈ files ∧ staticKey host W e.1 e.2 = k)
  ∧ ∀ v, staticOutputs host W files !! k = Some v →
         ∃ e, e ∈ files ∧ staticKey host W e.1 e.2 = k ∧ v = staticValue e.2.
Proof.
  unfold staticOutputs. split.
  - split.
    + intros [v [Hemp|(Hp & e & He & Hk & _)]%staticOutputs_fold_Some];
        [by rewrite lookup_empty in Hemp|]. split; [done|by exists e].
    + intros H. apply staticOutputs_fold_is_Some. by right.
  - intros v [Hemp|[_ ?]]%staticOutputs_fold_Some; [by rewrite lookup_empty in Hemp|done].
Qed.

(** X8: a static root without documents is handed on as it is: the static
    outputs are the entries [glob] listed, assigned in their order, keys
    and references unchanged; as no entry that [glob] lists has the key
    [__proto__], they are the map of those entries. *)
Theorem static_outputs_without_documents (W : string) (files : list (string * FileFsRef)) :
  Forall (λ e, ext (parse (fsPath e.2)) ≠ ".html") files →
  staticOutputs host W files = foldl (λ m e, assign e.1 e.2 m) ∅ files
  ∧ (Forall (λ e, e.1 ≠ "__proto__") files →
     staticOutputs host W files = foldl (λ m e, <[e.1 := e.2]> m) ∅ files).
Proof.
  unfold staticOutputs. generalize (∅ : gmap string FileFsRef).
  induction files as [|e files IH]; intros acc Hall; [done|].
  apply Forall_cons in Hall as [He Hall]. simpl.
  assert (Hstep : staticStep host W acc e = assign e.1 e.2 acc).
  { unfold staticStep, staticKey, staticValue. by rewrite !decide_True. }
  rewrite Hstep. destruct (IH (assign e.1 e.2 acc) Hall) as [IH1 IH2].
  split; [done|]. intros [Hp Hrest]%Forall_cons. rewrite (IH2 Hrest).
  unfold assign. by rewrite decide_False.
Qed.

Lemma lambdaOutputs_keys W api l acc st outs st' k :
  foldM (packageFunction host W api) acc l st = (Ok outs, st') →
  is_Some (outs !! k)
  ↔ is_Some (acc !! k) ∨ (k ≠ "__proto__" ∧ ∃ e, e ∈ l ∧ outputName api e.1 = k).
Proof.
  revert acc st. induction l as [|x l IH]; intros acc st; simpl.
  - intros [= <- _]. split; [by left|]. intros [?|(_ & e & He & _)]; [done|].
    by apply elem_of_nil in He.
  - intros (acc' & s1 & Hx & Hl)%bind_inv_Ok. rewrite (IH _ _ Hl).
    apply packageFunction_Ok_inv in Hx as (lam & _ & ->).
    rewrite lookup_assign_is_Some. split.
    + intros [[[-> Hp]|?]|(Hp & e & He & Hk)].
      * right. split; [done|]. exists x. split; [by left|done].
      * by left.
      * right. split; [done|]. exists e. split; [by right|done].
    + intros [Hacc|(Hp & e & [->|He]%elem_of_cons & Hk)].
      * left. by right.
      * left. left. by subst k.
      * right. split; [done|]. by exists e.
Qed.

(** X9: the manifest of a run that returns has a function under a key
    exactly when some function has that output name, and a static asset
    exactly when no function has it and some file of the static root has
    that key; it has no other keys, and it never has the key
    [__proto__]. *)
Theorem manifest_keys (inp : BuildInput) (out : BuildOutput Route) (st' : State)
    (k : string) :
  build host inp = (Ok out, st') →
  let api := apiDir (apiProxyPath inp) in
  let named := ∃ e, e ∈ functionFiles inp ∧ outputName api e.1 = k in
  (is_Some (lambdaAt out k) ↔ k ≠ "__proto__" ∧ named)
  ∧ (is_Some (staticAt out k)
     ↔ k ≠ "__proto__" ∧ ¬ named
       ∧ ∃ f, f ∈ webDistFiles inp ∧ staticKey host (webDistPathOf inp) f.1 f.2 = k).
Proof.
  intros (outs & s1 & Hloop & Hfin)%build_Ok_inv. cbv zeta.
  unfold finish in Hfin. destruct (error _); [done|]. injection Hfin as <- _.
  pose proof (lambdaOutputs_keys _ _ _ _ _ _ _ k Hloop) as Hkeys.
  rewrite lookup_empty in Hkeys.
  destruct (static_outputs_from_files (webDistPathOf inp) (webDistFiles inp) k)
    as [Hstat _].
  unfold lambdaAt, staticAt. simpl. rewrite lookup_union, !lookup_fmap.
  destruct (outs !! k) as [lam|] eqn:Eo; simpl.
  - assert (Hn : k ≠ "__proto__"
                 ∧ ∃ e, e ∈ functionFiles inp
                        ∧ outputName (apiDir (apiProxyPath inp)) e.1 = k).
    { destruct Hkeys as [Hk _]. destruct Hk as [[? ?]|?]; [by eexists|done|done]. }
    assert (Hu : (Some (inl lam) : option (Lambda + FileFsRef))
                 ∪ (inr <$> staticOutputs host (webDistPathOf inp) (webDistFiles inp) !! k)
                 = Some (inl lam)) by (by destruct (staticOutputs _ _ _ !! k)).
    rewrite Hu. split.
    + split; [done|by eexists].
    + split; [by intros [? ?]|]. intros (_ & Hnn & _). by destruct Hn.
  - assert (Hn : k ≠ "__proto__" →
                 ¬ ∃ e, e ∈ functionFiles inp
                        ∧ outputName (apiDir (apiProxyPath inp)) e.1 = k).
    { intros Hp H. destruct Hkeys as [_ Hk]. destruct Hk as [? ?]; [by right|done]. }
    destruct (staticOutputs host (webDistPathOf inp) (webDistFiles inp) !! k)
      as [r|] eqn:Es; simpl.
    + assert (Hs : k ≠ "__proto__"
                   ∧ ∃ f, f ∈ webDistFiles inp
                          ∧ staticKey host (webDistPathOf inp) f.1 f.2 = k).
      { apply Hstat. by eexists. }
      destruct Hs as [Hp Hs]. split.
      * split; [by intros [? ?]|]. intros [_ Hnamed]. by destruct (Hn Hp).
      * split; [intros _; split; [done|]; split; [by apply Hn|done]|by eexists].
    + split.
      * split; [by intros [? ?]|]. intros [Hp Hnamed]. by destruct (Hn Hp).
      * split; [by intros [? ?]|]. intros (Hp & _ & Hf).
        assert (is_Some (None : option FileFsRef)) as [? ?]; [|done].
        apply Hstat. by split.
Qed.

End Manifest.

Lemma manifest_keys_witness :
  match build (Sample.host []) Sample.colliding with
  | (Ok out, _) =>
      (is_Some (lambdaAt out "api/graphql")
       ↔ "api/graphql" ≠ "__proto__"
         ∧ ∃ e, e ∈ functionFiles Sample.colliding ∧ outputName "api" e.1 = "api/graphql")
  | _ => False
  end.
Proof.
  destruct (build (Sample.host []) Sample.colliding) as [[out|e] st'] eqn:E;
    [|by vm_compute in E].
  exact (proj1 (manifest_keys (Sample.host []) Sample.colliding out st' "api/graphql" E)).
Defined.

Lemma static_outputs_without_documents_witness :
  staticOutputs (Sample.host []) "/work/web/dist"
    [("api/graphql", Sample.ref 2 "/work/web/dist/api/graphql")]
  = <["api/graphql" := Sample.ref 2 "/work/web/dist/api/graphql"]> ∅.
Proof.
  apply (static_outputs_without_documents (Sample.host []) "/work/web/dist"
           [("api/graphql", Sample.ref 2 "/work/web/dist/api/graphql")]).
  - repeat constructor. by vm_compute.
  - repeat constructor. discriminate.
Defined.

(** ** The mount prefix (line 167) and the handler of a bare file name *)

Lemma rel_path_relative rs :
  rs ≠ [] → forallb normal_seg rs = true → starts_with_slash (rel_path rs) = false.
Proof.
  intros Hne Hs. destruct rs as [|s ss]; [done|]. simpl in Hs.
  apply andb_true_iff in Hs as [Hs _].
  apply normal_seg_spec in Hs as (Hsne & _ & _ & Hc).
  destruct s as [|c s]; [done|]. apply has_char_head in Hc.
  unfold rel_path. destruct ss; simpl; rewrite ?str_app_cons; simpl;
    by apply bool_decide_eq_false.
Qed.

Lemma normalize_rel_path rs :
  rs ≠ [] → forallb normal_seg rs = true → normalize (rel_path rs) = rel_path rs.
Proof.
  intros Hne Hs. pose proof (rel_path_nonempty _ Hne Hs) as Hn.
  destruct (split_rel_path _ Hs) as [Hp Hf].
  unfold normalize. rewrite decide_False by done.
  rewrite (rel_path_relative _ Hne Hs). simpl negb.
  rewrite normalizeString_plain by done. rewrite Hf.
  rewrite decide_False by done.
  by rewrite (ends_with_slash_rel_path _ Hne Hs).
Qed.

Lemma join_empty_rel rs :
  rs ≠ [] → forallb normal_seg rs = true → join [""; rel_path rs] = rel_path rs.
Proof.
  intros Hne Hs. pose proof (rel_path_nonempty _ Hne Hs) as Hn. unfold join.
  rewrite filter_cons_False by (intros ?; done).
  rewrite filter_cons_True, filter_nil by done. simpl join_with.
  destruct (rel_path rs) eqn:E; [done|]. rewrite <-E. by apply normalize_rel_path.
Qed.

(** X10: whether [apiProxyPath] starts with a slash or not makes no
    difference to the output names: under the proxy path [/p] as under [p]
    a function, be it the top-level [n.js] or the nested [d/n.js], is
    named [p/n], and under the proxy path [/] it is named [n] alone. *)
Theorem output_name_under_proxy_path (prefix : list string) (d n funcName : string) :
  forallb normal_seg prefix = true → normal_seg n = true →
  funcName = n +:+ ".js" ∨ funcName = d +:+ "/" +:+ n +:+ ".js" →
  outputName (apiDir (Some ("/" +:+ rel_path prefix))) funcName = rel_path (prefix ++ [n])
  ∧ (prefix ≠ [] →
     outputName (apiDir (Some (rel_path prefix))) funcName = rel_path (prefix ++ [n])).
Proof.
  intros Hp Hn Hfile. pose proof Hn as (Hne & _ & _ & Hs)%normal_seg_spec.
  assert (E : name (parse funcName) = n).
  { destruct (name_of_js d n Hne Hs) as [E1 E2]. by destruct Hfile as [-> | ->]. }
  assert (Hn1 : forallb normal_seg [n] = true) by (simpl; by rewrite Hn).
  assert (Hjoin : prefix ≠ [] → join [rel_path prefix; n] = rel_path (prefix ++ [n])).
  { intros H0. by apply (join_rel_rel prefix [n]). }
  split.
  - assert (apiDir (Some ("/" +:+ rel_path prefix)) = rel_path prefix) as ->.
    { rewrite slash_app. unfold apiDir. by destruct (decide (slash = slash)). }
    unfold outputName. rewrite E.
    destruct (decide (prefix = [])) as [->|H0]; [|by apply Hjoin].
    by apply (join_empty_rel [n]).
  - intros H0.
    assert (apiDir (Some (rel_path prefix)) = rel_path prefix) as ->.
    { pose proof (rel_path_relative _ H0 Hp) as Hr.
      destruct (rel_path prefix) as [|c t]; [done|]. simpl in *.
      apply bool_decide_eq_false in Hr. by rewrite decide_False. }
    unfold outputName. rewrite E. by apply Hjoin.
Qed.

Lemma output_name_under_proxy_path_witness :
  outputName (apiDir (Some ("/" +:+ rel_path []))) "graphql.js" = rel_path ([] ++ ["graphql"])
  ∧ outputName (apiDir (Some (rel_path [".redwood"; "functions"]))) "bazinga/bazinga.js"
    = rel_path ([".redwood"; "functions"] ++ ["bazinga"]).
Proof.
  split.
  - exact (proj1 (output_name_under_proxy_path [] "" "graphql" "graphql.js"
                    eq_refl eq_refl (or_introl eq_refl))).
  - exact (proj2 (output_name_under_proxy_path [".redwood"; "functions"] "bazinga" "bazinga"
                    "bazinga/bazinga.js" eq_refl eq_refl (or_intror eq_refl))
             ltac:(discriminate)).
Defined.

(** X11: for a file in no directory the handler reference is the file
    name with its extension replaced by the handler name, and no separator
    is put in front of it. *)
Theorem handler_of_bare_file_name (n handlerName : string) :
  n ≠ "" → has_char slash n = false →
  getAWSLambdaHandler (n +:+ ".js") handlerName = n +:+ "." +:+ handlerName.
Proof.
  intros Hn Hs. unfold getAWSLambdaHandler.
  rewrite parse_base.
  - simpl. by rewrite split_ext_js.
  - intros [? _]%str_app_eq_nil. done.
  - by rewrite has_char_app, Hs.
Qed.

Lemma handler_of_bare_file_name_witness :
  getAWSLambdaHandler ("graphql" +:+ ".js") "handler" = "graphql" +:+ "." +:+ "handler".
Proof. apply handler_of_bare_file_name; [discriminate|reflexivity]. Defined.

(** ** The build command (lines 132-165) *)

Lemma hasScript_true scriptName pkg :
  hasScript scriptName pkg = true
  ↔ ∃ pj table s, pkg = Some pj ∧ scripts pj = Some table
                  ∧ table !! scriptName = Some (JsString s).
Proof.
  unfold hasScript. split.
  - destruct pkg as [pj|]; simpl; [|by rewrite lookup_empty].
    destruct (scripts pj) as [table|] eqn:Et; simpl; [|by rewrite lookup_empty].
    destruct (table !! scriptName) as [[s|]|] eqn:Es; [|done..].
    intros _. by exists pj, table, s.
  - intros (pj & table & s & -> & Ht & Hs). simpl. rewrite Ht. simpl. by rewrite Hs.
Qed.

(** X12: whatever [semver] answers, the command [build] runs is never the
    empty string, and a script of [package.json] is run only when no build
    command is configured and [package.json] is there and has, among its
    [scripts], a string under the name of that script; the script is
    [vercel-build], or it is [build] and [package.json] has no string
    under [vercel-build]. *)
Theorem build_command_well_formed (validRange : string → bool)
    (intersects : string → string → bool) (buildCommand : option string)
    (pkg : option PackageJson) :
  match (chooseBuild validRange intersects buildCommand pkg).2 with
  | ExecCommand cmd => cmd ≠ ""
  | RunPackageJsonScript script =>
      (buildCommand = None ∨ buildCommand = Some "")
      ∧ (∃ pj table s, pkg = Some pj ∧ scripts pj = Some table
                       ∧ table !! script = Some (JsString s))
      ∧ (script = "vercel-build"
         ∨ script = "build"
           ∧ ∀ pj table s, pkg = Some pj → scripts pj = Some table →
                           table !! "vercel-build" ≠ Some (JsString s))
  end.
Proof.
  assert (Hno : hasScript "vercel-build" pkg = false →
                ∀ pj table s, pkg = Some pj → scripts pj = Some table →
                              table !! "vercel-build" ≠ Some (JsString s)).
  { intros Hv pj table s Hp Ht Hs.
    assert (hasScript "vercel-build" pkg = true) as Ht'; [|by rewrite Ht' in Hv].
    apply hasScript_true. by exists pj, table, s. }
  unfold chooseBuild.
  destruct buildCommand as [[|c cmd]|]; try done;
    (destruct (hasScript "vercel-build" pkg) eqn:Hv;
      [apply hasScript_true in Hv; simpl; split; [by eauto|]; split; [done|by left]|];
     destruct (hasScript "build" pkg) eqn:Hb;
      [apply hasScript_true in Hb; simpl; split; [by eauto|]; split; [done|];
       right; split; [done|by apply Hno]|];
     destruct (default ∅ (pkg ≫= devDependencies) !! "@redwoodjs/core") as [[|c0 r]|];
       try done;
     destruct (validRange _); simpl; [|done];
     by destruct (intersects _ _)).
Qed.

Lemma build_command_well_formed_example :
  let pkg := Some {| scripts := Some {[ "build" := JsString "rw build" ]};
                     devDependencies := None |} in
  chooseBuild (λ _, true) (λ _ _, true) None pkg
  = ([DebugLine ("Executing " +:+ quote +:+ "yarn build" +:+ quote)],
     RunPackageJsonScript "build").
Proof. by vm_compute. Qed.

(** X13: when no build command is configured and [package.json] is
    missing, or has neither of the two scripts and names no version of
    [@redwoodjs/core] among its development dependencies, [build] warns and
    runs [yarn rw deploy vercel]; [semver] is not consulted. *)
Theorem build_command_without_version (validRange : string → bool)
    (intersects : string → string → bool) (buildCommand : option string)
    (pkg : option PackageJson) :
  buildCommand = None ∨ buildCommand = Some "" →
  hasScript "vercel-build" pkg = false → hasScript "build" pkg = false →
  (pkg ≫= devDependencies) ≫= (λ deps, deps !! "@redwoodjs/core") = None
  ∨ (pkg ≫= devDependencies) ≫= (λ deps, deps !! "@redwoodjs/core") = Some "" →
  chooseBuild validRange intersects buildCommand pkg
  = ([ConsoleLog "WARNING: Unable to detect RedwoodJS version in package.json devDependencies"],
     ExecCommand "yarn rw deploy vercel").
Proof.
  intros Hbc Hv Hb Hdev. unfold chooseBuild. rewrite Hv, Hb.
  assert (Hd : default ∅ (pkg ≫= devDependencies) !! "@redwoodjs/core" = None
               ∨ default ∅ (pkg ≫= devDependencies) !! "@redwoodjs/core" = Some "").
  { destruct (pkg ≫= devDependencies) as [deps|]; simpl in *; [done|].
    left. apply lookup_empty. }
  destruct Hbc as [->| ->]; by destruct Hd as [->| ->].
Qed.

Lemma build_command_without_version_witness :
  chooseBuild (λ _, true) (λ _ _, true) None None
  = ([ConsoleLog "WARNING: Unable to detect RedwoodJS version in package.json devDependencies"],
     ExecCommand "yarn rw deploy vercel").
Proof.
  apply build_command_without_version; [by left|reflexivity|reflexivity|by left].
Defined.
